(** * evolve/code_optimizations.py: search over code-level optimization flags

    A shallow embedding of the optimization registry, the candidate model,
    the Criterion evaluator and the two search strategies (incremental and
    combinatorial), followed by the properties of the implementation.

    Conventions of the embedding.
    - A Python [dict] is an association list in insertion order with unique
      keys ([Dict.set] overwrites in place or appends, as CPython does).
    - A Python [float] is an exact rational ([Q]): rounding, overflow and NaN
      of binary64 are outside the model.  The [/] operator raises
      [ZeroDivisionError] on a zero divisor, as in Python.
    - [subprocess.run] is the only contact with the outer world.  It is a
      function of the number of runs made so far and of the command line; it
      either completes with a return code and a report, or times out.  The
      report is the mapping that [_parse_criterion_output] extracts from the
      captured standard output.
    - Exceptions are values of [exn]; code that may raise lives in [Result],
      code that also touches the evaluator in the monad [M].
    - Logging has no effect on the state and is left out. *)

From Stdlib Require Import List String Ascii Bool ZArith QArith Lia.
From Stdlib Require Import Permutation Sorted.
Import ListNotations.

Set Implicit Arguments.

(** ** Python dictionaries *)

Definition dict (V : Type) : Type := list (string * V).

Module Dict.
Section Dict.
Variable V : Type.

(** [d[k]] and [d.get(k)] *)
Fixpoint get (d : dict V) (k : string) : option V :=
  match d with
  | [] => None
  | (k', v) :: d' => if String.eqb k k' then Some v else get d' k
  end.

(** [k in d] *)
Definition mem (d : dict V) (k : string) : bool :=
  match get d k with Some _ => true | None => false end.

(** [d[k] = v]: an existing key keeps its position, a new key goes last. *)
Fixpoint set (d : dict V) (k : string) (v : V) : dict V :=
  match d with
  | [] => [(k, v)]
  | (k', v') :: d' =>
      if String.eqb k k' then (k', v) :: d' else (k', v') :: set d' k v
  end.

Definition keys (d : dict V) : list string := map fst d.
Definition values (d : dict V) : list V := map snd d.
Definition items (d : dict V) : list (string * V) := d.

(** [{k: f(k) for k in ks}] *)
Definition comp (f : string -> V) (ks : list string) : dict V :=
  fold_left (fun d k => set d k (f k)) ks [].

(** A dictionary holds each key once. *)
Definition wf (d : dict V) : Prop := NoDup (keys d).
End Dict.
End Dict.

(** ** Exceptions *)

Inductive exn : Type :=
| TimeoutExpired
| ZeroDivisionError
| TypeError.

Inductive Result (A : Type) : Type :=
| Return (a : A)
| Raise (e : exn).
Arguments Return {A} a.
Arguments Raise {A} e.

Definition rbind {A B} (r : Result A) (k : A -> Result B) : Result B :=
  match r with
  | Return a => k a
  | Raise e => Raise e
  end.

(** [x / y] on floats *)
Definition truediv (x y : Q) : Result Q :=
  if Qeq_bool y 0 then Raise ZeroDivisionError else Return (x / y)%Q.

(** [x > y] on floats *)
Definition Qgtb (x y : Q) : bool := negb (Qle_bool x y).

(** [sum(l)] *)
Definition sum (l : list Q) : Q := fold_left Qplus l 0%Q.

(** [sub in s] on strings *)
Fixpoint contains (sub s : string) : bool :=
  prefix sub s ||
  match s with
  | EmptyString => false
  | String _ s' => contains sub s'
  end.

(** [s.replace("opt-", "")] *)
Fixpoint remove_opt (s : string) : string :=
  match s with
  | String "o" (String "p" (String "t" (String "-" rest))) => remove_opt rest
  | String c s' => String c (remove_opt s')
  | EmptyString => EmptyString
  end.

(** ** Sorting

    [sorted] and [list.sort] are stable; the result of a stable sort is
    determined by the input and the order, so insertion sort stands for
    Timsort.  [le x y] says that [x] may stay in front of [y]. *)

Section StableSort.
Variable A : Type.
Variable le : A -> A -> bool.

Fixpoint insert (x : A) (l : list A) : list A :=
  match l with
  | [] => [x]
  | y :: l' => if le x y then x :: y :: l' else y :: insert x l'
  end.

Fixpoint stable_sort (l : list A) : list A :=
  match l with
  | [] => []
  | x :: l' => insert x (stable_sort l')
  end.
End StableSort.

(** [for x in l: s = body(x, s)], leaving at the first exception *)
Fixpoint for_each {A S : Type} (l : list A) (body : A -> S -> Result S)
    (s : S) : Result S :=
  match l with
  | [] => Return s
  | x :: l' => rbind (body x s) (for_each l' body)
  end.

(** [l[:n]] for a Python integer [n] *)
Definition slice_to (A : Type) (l : list A) (n : Z) : list A :=
  if (0 <=? n)%Z then firstn (Z.to_nat n) l
  else firstn (List.length l - Z.to_nat (- n)) l.

(** [itertools.combinations(l, r)] *)
Fixpoint combinations (A : Type) (l : list A) (r : nat) : list (list A) :=
  match r, l with
  | O, _ => [[]]
  | S _, [] => []
  | S r', x :: l' => map (cons x) (combinations l' r') ++ combinations l' r
  end.

(** ** The registry *)

Record CodeOptimization : Type := {
  name : string;
  description : string;
  expected_gain : Q;
  risk : string;
  files_modified : list string;
  priority : Z
}.

Definition feature_flag (o : CodeOptimization) : string := name o.

Definition CODE_OPTIMIZATIONS : dict CodeOptimization :=
  [ ("opt-single-key-alloc",
     {| name := "opt-single-key-alloc";
        description :=
          "Single allocation in set_direct (eliminate double key.to_string())";
        expected_gain := 0.04;
        risk := "low";
        files_modified := ["src/redis/commands.rs"];
        priority := 0 |});
    ("opt-static-responses",
     {| name := "opt-static-responses";
        description :=
          "Static OK/PONG responses instead of allocating each time";
        expected_gain := 0.015;
        risk := "low";
        files_modified := ["src/redis/commands.rs"];
        priority := 1 |});
    ("opt-zero-copy-get",
     {| name := "opt-zero-copy-get";
        description :=
          "Zero-copy GET response using Bytes/Arc instead of Vec clone";
        expected_gain := 0.025;
        risk := "medium";
        files_modified := ["src/redis/commands.rs"; "src/redis/data.rs"];
        priority := 2 |});
    ("opt-itoa-encode",
     {| name := "opt-itoa-encode";
        description :=
          "Use itoa crate for fast integer encoding in RESP responses";
        expected_gain := 0.015;
        risk := "low";
        files_modified := ["src/production/connection_optimized.rs"];
        priority := 3 |});
    ("opt-fxhash-routing",
     {| name := "opt-fxhash-routing";
        description := "Use FxHash/AHash for faster shard routing";
        expected_gain := 0.015;
        risk := "low";
        files_modified := ["src/production/sharded_actor.rs"];
        priority := 4 |});
    ("opt-atoi-parse",
     {| name := "opt-atoi-parse";
        description := "Use atoi crate for fast integer parsing from bytes";
        expected_gain := 0.03;
        risk := "low";
        files_modified := ["src/production/connection_optimized.rs"];
        priority := 5 |}) ]%string.

(** ** Candidates, evaluator and strategies

    The module-level registry and [subprocess.run] are the parameters of the
    development; [CODE_OPTIMIZATIONS] above is the registry that ships. *)

(** What one external benchmark run does. *)
Inductive ProcessOutcome : Type :=
| Completed (returncode : Z) (report : dict Q)
| TimedOut.

Record OptimizationCandidate : Type := {
  enabled : dict bool;
  fitness : option Q;
  generation : Z
}.

Definition set_fitness (c : OptimizationCandidate) (f : Q) :
    OptimizationCandidate :=
  {| enabled := enabled c; fitness := Some f; generation := generation c |}.

(** Reading [c.fitness] where a float is needed: [None] is a [TypeError]. *)
Definition get_fitness (c : OptimizationCandidate) : Result Q :=
  match fitness c with
  | Some f => Return f
  | None => Raise TypeError
  end.

Definition feature_flags (c : OptimizationCandidate) : list string :=
  map fst (filter (fun item => snd item) (Dict.items (enabled c))).

Definition cargo_features (c : OptimizationCandidate) : string :=
  match feature_flags c with
  | [] => ""
  | flags => String.concat "," flags
  end.

Definition summary (c : OptimizationCandidate) : string :=
  let joined := String.concat ", " (map remove_opt (feature_flags c)) in
  "[" ++ (if String.eqb joined "" then "baseline" else joined) ++ "]".

Record CandidateDict : Type := {
  cd_enabled : dict bool;
  cd_fitness : option Q;
  cd_generation : Z;
  cd_expected_gain : Q
}.

Record CriterionEvaluator : Type := {
  _baseline_results : option (dict Q);
  runs : nat
}.

(** State of the evaluator, with exceptions. *)
Definition M (A : Type) : Type :=
  CriterionEvaluator -> Result A * CriterionEvaluator.

Definition ret {A} (a : A) : M A := fun ev => (Return a, ev).

Definition bind {A B} (m : M A) (k : A -> M B) : M B :=
  fun ev =>
    match m ev with
    | (Return a, ev') => k a ev'
    | (Raise e, ev') => (Raise e, ev')
    end.

Definition lift {A} (r : Result A) : M A := fun ev => (r, ev).

Declare Scope py_scope.
Delimit Scope py_scope with py.
Notation "x <- m ;; k" := (bind m (fun x => k))
  (at level 61, m at next level, right associativity) : py_scope.
Notation "m ;; k" := (bind m (fun _ => k))
  (at level 61, right associativity) : py_scope.

Inductive HistoryEntry : Type :=
| StepEntry (optimization : string) (tested_fitness : Q) (accepted : bool)
    (current_best : Q)
| ErrorEntry (optimization : string) (error : exn)
| ComboEntry (combination : string) (combo_fitness : Q)
    (combo_enabled : dict bool).

Record Results : Type := {
  best_candidate : option CandidateDict;
  best_features : list string;
  history : list HistoryEntry
}.

Inductive File : Type :=
| ResultsJson (results : Results)
| BestFeaturesSh (features : string) (script_fitness : Q).

Record CodeOptimizationEvolver : Type := {
  use_criterion : bool;
  criterion_eval : CriterionEvaluator;
  _history : list HistoryEntry;
  _best : option OptimizationCandidate;
  written : list File
}.

(** [CodeOptimizationEvolver(project_root, results_dir, use_criterion)] *)
Definition new_evolver (use_criterion : bool) : CodeOptimizationEvolver :=
  {| use_criterion := use_criterion;
     criterion_eval := {| _baseline_results := None; runs := 0 |};
     _history := [];
     _best := None;
     written := [] |}.

Definition hot_paths : list string := ["set_direct"; "get_direct"]%string.

(** [relevant = [v for k, v in relative.items()
                 if any(hp in k for hp in hot_paths)]] *)
Definition relevant (relative : dict Q) : list Q :=
  map snd
    (filter (fun item => existsb (fun hp => contains hp (fst item)) hot_paths)
       (Dict.items relative)).

(** [sum(relevant) / len(relevant) if relevant else 1.0] *)
Definition avg_improvement (relative : dict Q) : Result Q :=
  match relevant relative with
  | [] => Return 1%Q
  | rel => truediv (sum rel) (inject_Z (Z.of_nat (List.length rel)))
  end.

Section Evolve.
Variable REGISTRY : dict CodeOptimization.
Variable subprocess_run : nat -> list string -> ProcessOutcome.

Local Open Scope py_scope.

(** *** OptimizationCandidate *)

Definition expected_total_gain (c : OptimizationCandidate) : Q :=
  fold_left
    (fun (total : Q) (item : string * bool) =>
       match (if snd item then Dict.get REGISTRY (fst item) else None) with
       | Some o => (total + expected_gain o)%Q
       | None => total
       end)
    (Dict.items (enabled c)) 0%Q.

Definition to_dict (c : OptimizationCandidate) : CandidateDict :=
  {| cd_enabled := enabled c;
     cd_fitness := fitness c;
     cd_generation := generation c;
     cd_expected_gain := expected_total_gain c |}.

Definition baseline : OptimizationCandidate :=
  {| enabled := Dict.comp (fun _ => false) (Dict.keys REGISTRY);
     fitness := None;
     generation := 0 |}.

Definition all_enabled : OptimizationCandidate :=
  {| enabled := Dict.comp (fun _ => true) (Dict.keys REGISTRY);
     fitness := None;
     generation := 0 |}.

(** *** CriterionEvaluator *)

Definition bench_command (features : list string) : list string :=
  let head : list string := ["cargo"; "bench"; "--bench"; "hot_paths"]%string in
  let selector : list string :=
    match features with
    | [] => []
    | _ => ["--features"; String.concat "," features]%string
    end in
  let tail : list string := ["--"; "--noplot"]%string in
  (head ++ selector ++ tail)%list.

Definition _run_criterion_bench (features : list string) : M (dict Q) :=
  fun ev =>
    let ev' := {| _baseline_results := _baseline_results ev;
                  runs := S (runs ev) |} in
    match subprocess_run (runs ev) (bench_command features) with
    | TimedOut => (Raise TimeoutExpired, ev')
    | Completed returncode report =>
        if negb (returncode =? 0)%Z then (Return [], ev')
        else (Return report, ev')
    end.

Definition capture_baseline : M (dict Q) :=
  results <- _run_criterion_bench [] ;;
  fun ev =>
    (Return results,
     {| _baseline_results := Some results; runs := runs ev |}).

(** The body of the loop of [evaluate] over [results.items()]. *)
Definition relative_entry (base : dict Q) (item : string * Q)
    (relative : dict Q) : Result (dict Q) :=
  let (bench, time_ns) := item in
  match Dict.get base bench with
  | Some baseline_time =>
      rbind (if Qgtb time_ns 0 then truediv baseline_time time_ns
             else Return 1%Q)
            (fun ratio => Return (Dict.set relative bench ratio))
  | None => Return (Dict.set relative bench 1%Q)
  end.

Definition evaluate (candidate : OptimizationCandidate) : M (dict Q) :=
  let features := feature_flags candidate in
  results <- _run_criterion_bench features ;;
  (fun ev =>
     match _baseline_results ev with
     | None => bind capture_baseline (fun _ => ret tt) ev
     | Some _ => ret tt ev
     end) ;;
  fun ev =>
    match _baseline_results ev with
    | None => (Raise TypeError, ev)
    | Some base =>
        (for_each (Dict.items results) (relative_entry base) [], ev)
    end.

(** *** CodeOptimizationEvolver *)

Definition _save_results (self : CodeOptimizationEvolver) :
    Result unit * CodeOptimizationEvolver :=
  let results :=
    {| best_candidate := option_map to_dict (_best self);
       best_features :=
         match _best self with Some b => feature_flags b | None => [] end;
       history := _history self |} in
  let saved (files : list File) :=
    {| use_criterion := use_criterion self;
       criterion_eval := criterion_eval self;
       _history := _history self;
       _best := _best self;
       written := written self ++ files |} in
  match _best self with
  | None => (Return tt, saved [ResultsJson results])
  | Some b =>
      match fitness b with
      | None => (Raise TypeError, saved [ResultsJson results])
      | Some f =>
          (Return tt,
           saved [ResultsJson results; BestFeaturesSh (cargo_features b) f])
      end
  end.

(** The state of the loop of [run_incremental]: the local [current],
    [self._best], [self._history] and the evaluator. *)
Record IncState : Type := {
  current : OptimizationCandidate;
  inc_best : option OptimizationCandidate;
  inc_history : list HistoryEntry;
  inc_eval : CriterionEvaluator
}.

(** The fitness of [test] in one step: measured against [current] with
    Criterion, or mocked from the expected gain. *)
Definition incremental_fitness (criterion : bool) (opt : CodeOptimization)
    (cur test : OptimizationCandidate) : M Q :=
  if criterion then
    relative <- evaluate test ;;
    avg <- lift (avg_improvement relative) ;;
    cf <- lift (get_fitness cur) ;;
    ret (cf * avg)%Q
  else
    cf <- lift (get_fitness cur) ;;
    ret (cf * (1 + expected_gain opt))%Q.

(** The [try] block of one step: the fitness of [test], the decision, the
    history entry.  It yields the new [current], the new [self._best] and the
    entry to append. *)
Definition incremental_try (criterion : bool) (opt : CodeOptimization)
    (cur : OptimizationCandidate) (best : option OptimizationCandidate)
    (test : OptimizationCandidate) :
    M (OptimizationCandidate * option OptimizationCandidate * HistoryEntry) :=
  test_fitness <- incremental_fitness criterion opt cur test ;;
  let test := set_fitness test test_fitness in
  cf <- lift (get_fitness cur) ;;
  let (cur', best') :=
    if Qgtb test_fitness cf then (test, Some test) else (cur, best) in
  cf' <- lift (get_fitness cur') ;;
  ret (cur', best',
       StepEntry (name opt) test_fitness (Qgtb test_fitness cf') cf').

(** [OptimizationCandidate(enabled={**current.enabled, opt.name: True},
                           generation=opt.priority + 1)] *)
Definition test_candidate (cur : OptimizationCandidate)
    (opt : CodeOptimization) : OptimizationCandidate :=
  {| enabled := Dict.set (enabled cur) (name opt) true;
     fitness := None;
     generation := priority opt + 1 |}.

(** One iteration of [for opt in opts] in [run_incremental]. *)
Definition incremental_step (criterion : bool) (st : IncState)
    (opt : CodeOptimization) : IncState :=
  let test := test_candidate (current st) opt in
  match incremental_try criterion opt (current st) (inc_best st) test
          (inc_eval st) with
  | (Return (cur', best', entry), ev') =>
      {| current := cur';
         inc_best := best';
         inc_history := inc_history st ++ [entry];
         inc_eval := ev' |}
  | (Raise e, ev') =>
      {| current := current st;
         inc_best := inc_best st;
         inc_history := inc_history st ++ [ErrorEntry (name opt) e];
         inc_eval := ev' |}
  end.

Definition by_priority : list CodeOptimization :=
  stable_sort (fun a b => (priority a <=? priority b)%Z)
    (Dict.values REGISTRY).

(** The loop state on entry: [current] is the baseline with fitness 100,
    and [self._best] is [current]. *)
Definition incremental_start (self : CodeOptimizationEvolver)
    (ev : CriterionEvaluator) : IncState :=
  let cur := set_fitness baseline 100 in
  {| current := cur;
     inc_best := Some cur;
     inc_history := _history self;
     inc_eval := ev |}.

Definition run_incremental (self : CodeOptimizationEvolver) :
    Result (option OptimizationCandidate) * CodeOptimizationEvolver :=
  let opts := by_priority in
  let with_eval (ev : CriterionEvaluator) :=
    {| use_criterion := use_criterion self;
       criterion_eval := ev;
       _history := _history self;
       _best := _best self;
       written := written self |} in
  match (if use_criterion self then
           bind capture_baseline (fun _ => ret tt) (criterion_eval self)
         else (Return tt, criterion_eval self)) with
  | (Raise e, ev) => (Raise e, with_eval ev)
  | (Return _, ev) =>
      let st :=
        fold_left (incremental_step (use_criterion self)) opts
          (incremental_start self ev) in
      let self' :=
        {| use_criterion := use_criterion self;
           criterion_eval := inc_eval st;
           _history := inc_history st;
           _best := inc_best st;
           written := written self |} in
      match _save_results self' with
      | (Raise e, self'') => (Raise e, self'')
      | (Return _, self'') => (Return (_best self''), self'')
      end
  end.

(** The power set of the registry names, in the order of the two nested
    loops of [run_combinatorial]. *)
Definition power_set_candidates : list OptimizationCandidate :=
  let all_opts := Dict.keys REGISTRY in
  flat_map
    (fun r =>
       map (fun combo =>
              {| enabled :=
                   Dict.comp (fun name => existsb (String.eqb name) combo)
                     all_opts;
                 fitness := None;
                 generation := 0 |})
           (combinations all_opts r))
    (seq 0 (List.length all_opts + 1)).

(** [candidates.sort(key=lambda c: c.expected_total_gain(), reverse=True)] *)
Definition sort_by_expected_gain (candidates : list OptimizationCandidate) :
    list OptimizationCandidate :=
  stable_sort
    (fun a b => Qle_bool (expected_total_gain b) (expected_total_gain a))
    candidates.

(** The candidates that the loop of [run_combinatorial] goes through. *)
Definition selected_candidates (max_combinations : Z) :
    list OptimizationCandidate :=
  slice_to (sort_by_expected_gain power_set_candidates) max_combinations.

(** The state of the loop of [run_combinatorial]: the local [best],
    [self._history] and the evaluator. *)
Record CombState : Type := {
  comb_best : option OptimizationCandidate;
  comb_history : list HistoryEntry;
  comb_eval : CriterionEvaluator
}.

(** The fitness of [cand]: measured against the baseline with Criterion,
    or mocked from the expected total gain. *)
Definition combinatorial_fitness (criterion : bool)
    (cand : OptimizationCandidate) : M Q :=
  if criterion then
    relative <- evaluate cand ;;
    avg <- lift (avg_improvement relative) ;;
    ret (100 * avg)%Q
  else ret (100 * (1 + expected_total_gain cand))%Q.

(** The [try] block of one iteration: the fitness of [cand], the running
    best, the history entry. *)
Definition combinatorial_try (criterion : bool)
    (best : option OptimizationCandidate) (cand : OptimizationCandidate) :
    M (option OptimizationCandidate * HistoryEntry) :=
  cand_fitness <- combinatorial_fitness criterion cand ;;
  let cand := set_fitness cand cand_fitness in
  best' <-
    match best with
    | None => ret (Some cand)
    | Some b =>
        bf <- lift (get_fitness b) ;;
        ret (if Qgtb cand_fitness bf then Some cand else best)
    end ;;
  ret (best', ComboEntry (summary cand) cand_fitness (enabled cand)).

(** One iteration of [for i, cand in enumerate(candidates)]. *)
Definition combinatorial_step (criterion : bool) (st : CombState)
    (cand : OptimizationCandidate) : CombState :=
  match combinatorial_try criterion (comb_best st) cand (comb_eval st) with
  | (Return (best', entry), ev') =>
      {| comb_best := best';
         comb_history := comb_history st ++ [entry];
         comb_eval := ev' |}
  | (Raise _, ev') =>
      {| comb_best := comb_best st;
         comb_history := comb_history st;
         comb_eval := ev' |}
  end.

(** The loop state on entry: no best yet. *)
Definition combinatorial_start (self : CodeOptimizationEvolver) : CombState :=
  {| comb_best := None;
     comb_history := _history self;
     comb_eval := criterion_eval self |}.

Definition run_combinatorial (self : CodeOptimizationEvolver)
    (max_combinations : Z) :
    Result (option OptimizationCandidate) * CodeOptimizationEvolver :=
  let candidates := selected_candidates max_combinations in
  let st :=
    fold_left (combinatorial_step (use_criterion self)) candidates
      (combinatorial_start self) in
  let self' :=
    {| use_criterion := use_criterion self;
       criterion_eval := comb_eval st;
       _history := comb_history st;
       _best := comb_best st;
       written := written self |} in
  match _save_results self' with
  | (Raise e, self'') => (Raise e, self'')
  | (Return _, self'') => (Return (comb_best st), self'')
  end.

End Evolve.

(** ** Reference definitions, in the words of the specification *)

(** The arithmetic mean of a list of ratios. *)
Definition mean (l : list Q) : Q :=
  (sum l / inject_Z (Z.of_nat (List.length l)))%Q.

(** The relative performance of one benchmark against a baseline. *)
Definition ratio (base : dict Q) (bench : string) (time_ns : Q) : Q :=
  match Dict.get base bench with
  | Some baseline_time =>
      if Qgtb time_ns 0 then (baseline_time / time_ns)%Q else 1%Q
  | None => 1%Q
  end.

(** A benchmark is hot when its identifier contains a hot substring. *)
Definition is_hot (bench : string) : bool :=
  contains "set_direct" bench || contains "get_direct" bench.

Definition hot_ratios (relative : dict Q) : list Q :=
  map snd (filter (fun item => is_hot (fst item)) relative).

(** The factor of the fitness reduction: the mean of the hot ratios, and
    the neutral 1.0 when no benchmark is hot. *)
Definition fitness_factor (relative : dict Q) : Q :=
  match hot_ratios relative with
  | [] => 1%Q
  | _ => mean (hot_ratios relative)
  end.


(** The number of combinations of at most [n - 1] elements. *)
Definition count_upto {A : Type} (l : list A) (n : nat) : nat :=
  list_sum (map (fun r => List.length (combinations l r)) (seq 0 n)).

(** A list of names in lexicographic order. *)
Fixpoint sorted_names (l : list string) : bool :=
  match l with
  | [] => true
  | x :: l' =>
      match l' with
      | [] => true
      | y :: _ => String.leb x y && sorted_names l'
      end
  end.

(** Whether a history entry carries the error marker. *)
Definition is_error (e : HistoryEntry) : bool :=
  match e with
  | ErrorEntry _ _ => true
  | _ => false
  end.

(** ** Concrete inputs

    Reports, outer worlds and evaluators on which the properties below are
    run. *)

Module Examples.

Definition report : dict Q :=
  [ ("commands/get_direct", 50%Q);
    ("commands/set_direct", 80%Q);
    ("commands/ping", 10%Q) ]%string.

(** A baseline that lacks two of the benchmarks of [report]. *)
Definition partial_baseline : dict Q :=
  [ ("commands/get_direct", 100%Q) ]%string.

(** An evaluator whose cached baseline is [partial_baseline]. *)
Definition partial_evaluator : CriterionEvaluator :=
  {| _baseline_results := Some partial_baseline; runs := 0 |}.

Definition fresh_evaluator : CriterionEvaluator :=
  {| _baseline_results := None; runs := 0 |}.

(** Every run completes with exit status 0 and prints [report]. *)
Definition world_ok (i : nat) (cmd : list string) : ProcessOutcome :=
  Completed 0 report.

(** The first run exits with status 101, the later ones succeed. *)
Definition world_exit_101 (i : nat) (cmd : list string) : ProcessOutcome :=
  match i with
  | O => Completed 101 report
  | S _ => Completed 0 report
  end.

(** The run number [k] times out, the others succeed. *)
Definition world_timeout_at (k : nat) (i : nat) (cmd : list string) :
    ProcessOutcome :=
  if Nat.eqb i k then TimedOut else Completed 0 report.

(** Every run times out. *)
Definition world_timeout (i : nat) (cmd : list string) : ProcessOutcome :=
  TimedOut.

(** The result of [evaluate] on [report] against [partial_baseline]. *)
Definition partial_relative : dict Q :=
  [ ("commands/get_direct", (100 / 50)%Q);
    ("commands/set_direct", 1%Q);
    ("commands/ping", 1%Q) ]%string.

(** The first optimization of the shipped registry. *)
Definition single_key_alloc : CodeOptimization :=
  {| name := "opt-single-key-alloc";
     description :=
       "Single allocation in set_direct (eliminate double key.to_string())";
     expected_gain := 0.04;
     risk := "low";
     files_modified := ["src/redis/commands.rs"%string];
     priority := 0 |}.

(** Two candidates that enable the same two optimizations, built from
    differently ordered inputs. *)
Definition atoi_then_zero_copy : OptimizationCandidate :=
  {| enabled := [("opt-atoi-parse", true); ("opt-zero-copy-get", true)]%string;
     fitness := None;
     generation := 0 |}.

Definition zero_copy_then_atoi : OptimizationCandidate :=
  {| enabled := [("opt-zero-copy-get", true); ("opt-atoi-parse", true)]%string;
     fitness := None;
     generation := 0 |}.

End Examples.

(** ** Further definitions

    The rest of the module: the loop of the report parser, [from_dict], the
    command-line entry point, and the vocabulary of the properties of the
    two strategies. *)

(** The optimization or combination that a history entry is about. *)
Definition entry_label (e : HistoryEntry) : string :=
  match e with
  | StepEntry n _ _ _ => n
  | ErrorEntry n _ => n
  | ComboEntry n _ _ => n
  end.

(** What an entry of the incremental strategy can be: a step whose
    [accepted] flag is off, or the record of a timeout. *)
Definition incremental_entry (e : HistoryEntry) : Prop :=
  match e with
  | StepEntry _ _ acc _ => acc = false
  | ErrorEntry _ x => x = TimeoutExpired
  | ComboEntry _ _ _ => False
  end.

(** The entry that the combinatorial strategy records in mock mode. *)
Definition mock_combo_entry (REGISTRY : dict CodeOptimization)
    (c : OptimizationCandidate) : HistoryEntry :=
  ComboEntry (summary c) (100 * (1 + expected_total_gain REGISTRY c))
    (enabled c).

(** The running best against the entries recorded so far: no best and no
    entry, or a best that has its own entry and the largest fitness. *)
Definition best_of_entries (best : option OptimizationCandidate)
    (entries : list HistoryEntry) : Prop :=
  match best with
  | None => entries = []
  | Some b =>
      exists f,
        fitness b = Some f /\
        In (ComboEntry (summary b) f (enabled b)) entries /\
        Forall (fun e => match e with
                         | ComboEntry _ f' _ => (f' <= f)%Q
                         | _ => False
                         end) entries
  end.

(** The unit of a duration in the Criterion report: [ns], [us] (microseconds) or [ms]. *)
Inductive TimeUnit : Type :=
| Nanoseconds
| Microseconds
| Milliseconds.

(** The normalization to nanoseconds in [_parse_criterion_output]. *)
Definition to_nanoseconds (time_val : Q) (unit : TimeUnit) : Q :=
  match unit with
  | Microseconds => (time_val * 1000)%Q
  | Milliseconds => (time_val * 1000000)%Q
  | Nanoseconds => time_val
  end.

(** The loop of [_parse_criterion_output] over the matches of the pattern,
    each given by its groups: the benchmark name, the duration read as a
    float, the unit. *)
Definition parse_matches (matches : list (string * Q * TimeUnit)) : dict Q :=
  fold_left
    (fun results m =>
       Dict.set results (fst (fst m)) (to_nanoseconds (snd (fst m)) (snd m)))
    matches [].


(** [--mode] of the command line. *)
Inductive Mode : Type :=
| incremental
| combinatorial.

(** How [main] ends: with the best configuration printed (fitness,
    features, build command), with an exception of the run, or with the
    [AttributeError] of reading the fitness of [None]. *)
Inductive MainOutcome : Type :=
| Printed (best_fitness : Q) (features : string) (build_command : string)
| Uncaught (e : exn)
| AttributeError.

Definition double_quote : string := String (ascii_of_nat 34) EmptyString.

Section Main.
Variable REGISTRY : dict CodeOptimization.
Variable subprocess_run : nat -> list string -> ProcessOutcome.

(** [main], after the parsing of the arguments: [mode] is [args.mode] and
    [mock] is [args.mock]. *)
Definition main (mode : Mode) (mock : bool) : MainOutcome :=
  let evolver := new_evolver (negb mock) in
  let run :=
    match mode with
    | incremental => run_incremental REGISTRY subprocess_run evolver
    | combinatorial => run_combinatorial REGISTRY subprocess_run evolver 64
    end in
  match run with
  | (Raise e, _) => Uncaught e
  | (Return None, _) => AttributeError
  | (Return (Some best), _) =>
      match fitness best with
      | None => Uncaught TypeError
      | Some f =>
          let features := cargo_features best in
          if String.eqb features "" then
            Printed f "(baseline)" "cargo build --release"
          else
            Printed f features
              ("cargo build --release --features " ++ double_quote
               ++ features ++ double_quote)
      end
  end.
End Main.

Module Runs.

(** The mock run of the incremental strategy on the shipped registry. *)
Definition mock_incremental :
    Result (option OptimizationCandidate) * CodeOptimizationEvolver :=
  run_incremental CODE_OPTIMIZATIONS Examples.world_timeout
    (new_evolver false).

Definition mock_incremental_best : option OptimizationCandidate :=
  match fst mock_incremental with
  | Return best => best
  | Raise _ => None
  end.

(** The loop state of a Criterion run on entry, the baseline being
    [Examples.partial_baseline]. *)
Definition start : IncState :=
  incremental_start CODE_OPTIMIZATIONS (new_evolver true)
    Examples.partial_evaluator.

(** The first candidates of the combinatorial strategy. *)
Definition top3 : list OptimizationCandidate :=
  selected_candidates CODE_OPTIMIZATIONS 3.

Definition top : OptimizationCandidate :=
  hd (baseline CODE_OPTIMIZATIONS) top3.

End Runs.

(** * Properties *)

Unset Implicit Arguments.

(** ** Dictionaries *)

Section DictFacts.
Context {V : Type}.

Lemma get_set_same (d : dict V) k v : Dict.get (Dict.set d k v) k = Some v.
Proof.
  induction d as [|[k' v'] d IH]; simpl.
  - now rewrite String.eqb_refl.
  - destruct (String.eqb k k') eqn:E; simpl; rewrite E; auto.
Qed.

Lemma get_set_other (d : dict V) k k' v :
  k' <> k -> Dict.get (Dict.set d k v) k' = Dict.get d k'.
Proof.
  intros Hne. induction d as [|[k0 v0] d IH]; simpl.
  - destruct (String.eqb k' k) eqn:E; auto.
    apply String.eqb_eq in E. contradiction.
  - destruct (String.eqb k k0) eqn:E; simpl.
    + apply String.eqb_eq in E. subst k0.
      destruct (String.eqb k' k) eqn:E'; auto.
      apply String.eqb_eq in E'. contradiction.
    + now rewrite IH.
Qed.

Lemma get_None_notin (d : dict V) k :
  Dict.get d k = None <-> ~ In k (Dict.keys d).
Proof.
  induction d as [|[k' v'] d IH]; simpl.
  - tauto.
  - destruct (String.eqb k k') eqn:E.
    + apply String.eqb_eq in E. subst. split; [discriminate | tauto].
    + apply String.eqb_neq in E. rewrite IH. split.
      * intros H [H1|H1]; [congruence | tauto].
      * tauto.
Qed.

Lemma get_Some_in (d : dict V) k v :
  Dict.get d k = Some v -> In k (Dict.keys d).
Proof.
  intros H. destruct (in_dec string_dec k (Dict.keys d)) as [|Hn]; auto.
  apply get_None_notin in Hn. congruence.
Qed.

Lemma set_fresh (d : dict V) k v :
  ~ In k (Dict.keys d) -> Dict.set d k v = d ++ [(k, v)].
Proof.
  induction d as [|[k' v'] d IH]; simpl; intros Hn; auto.
  destruct (String.eqb k k') eqn:E.
  - apply String.eqb_eq in E. subst. tauto.
  - rewrite IH; tauto.
Qed.

Lemma keys_set (d : dict V) k v :
  Dict.keys (Dict.set d k v) =
  if Dict.mem d k then Dict.keys d else Dict.keys d ++ [k].
Proof.
  unfold Dict.mem. induction d as [|[k' v'] d IH]; simpl; auto.
  destruct (String.eqb k k') eqn:E; simpl; auto.
  rewrite IH. destruct (Dict.get d k); auto.
Qed.

(** A comprehension over distinct keys lists them in order. *)
Lemma comp_fresh (f : string -> V) (ks : list string) (acc : dict V) :
  NoDup ks -> (forall k, In k ks -> ~ In k (Dict.keys acc)) ->
  fold_left (fun d k => Dict.set d k (f k)) ks acc =
  acc ++ map (fun k => (k, f k)) ks.
Proof.
  revert acc. induction ks as [|k ks IH]; simpl; intros acc Hnd Hdis.
  - now rewrite app_nil_r.
  - inversion Hnd; subst. rewrite set_fresh by (apply Hdis; auto).
    rewrite IH; auto.
    + now rewrite <- app_assoc.
    + intros k' Hin. unfold Dict.keys. rewrite map_app, in_app_iff. simpl.
      intros [H|[H|[]]].
      * apply (Hdis k'); auto.
      * subst. contradiction.
Qed.

Lemma comp_NoDup (f : string -> V) (ks : list string) :
  NoDup ks -> Dict.comp f ks = map (fun k => (k, f k)) ks.
Proof.
  intros Hnd. unfold Dict.comp. rewrite comp_fresh; auto.
Qed.

End DictFacts.

(** ** Arithmetic on floats *)

Lemma Qgtb_lt (x y : Q) : Qgtb x y = true <-> (y < x)%Q.
Proof.
  unfold Qgtb. rewrite negb_true_iff, <- not_true_iff_false, Qle_bool_iff.
  split; [apply Qnot_le_lt | apply Qlt_not_le].
Qed.

Lemma Qgtb_le (x y : Q) : Qgtb x y = false <-> (x <= y)%Q.
Proof.
  unfold Qgtb. now rewrite negb_false_iff, Qle_bool_iff.
Qed.

Lemma Qgtb_irrefl (x : Q) : Qgtb x x = false.
Proof. apply Qgtb_le, Qle_refl. Qed.

(** The division guarded by [time_ns > 0] never raises. *)
Lemma truediv_guarded (b t : Q) :
  Qgtb t 0 = true -> truediv b t = Return (b / t)%Q.
Proof.
  intros H. unfold truediv. destruct (Qeq_bool t 0) eqn:E; auto.
  apply Qeq_bool_iff in E. apply Qgtb_lt in H. rewrite E in H.
  now apply Qlt_irrefl in H.
Qed.

(** ** The evaluator *)

Section EvaluatorFacts.
Variable subprocess_run : nat -> list string -> ProcessOutcome.

Lemma relative_entry_eq (base : dict Q) bench time_ns (relative : dict Q) :
  relative_entry base (bench, time_ns) relative =
  Return (Dict.set relative bench (ratio base bench time_ns)).
Proof.
  unfold relative_entry, ratio. destruct (Dict.get base bench); auto.
  destruct (Qgtb time_ns 0) eqn:E; auto.
  now rewrite truediv_guarded.
Qed.

Lemma for_each_relative (base : dict Q) (results acc : dict Q) :
  for_each results (relative_entry base) acc =
  Return (fold_left
            (fun d item =>
               Dict.set d (fst item) (ratio base (fst item) (snd item)))
            results acc).
Proof.
  revert acc. induction results as [|[bench t] results IH]; intros acc; auto.
  cbn [for_each]. rewrite relative_entry_eq.
  cbn [rbind fold_left fst snd]. apply IH.
Qed.

Lemma fold_set_fresh (base : dict Q) (results acc : dict Q) :
  NoDup (Dict.keys results) ->
  (forall k, In k (Dict.keys results) -> ~ In k (Dict.keys acc)) ->
  fold_left
    (fun d item => Dict.set d (fst item) (ratio base (fst item) (snd item)))
    results acc =
  acc ++ map (fun item => (fst item, ratio base (fst item) (snd item)))
             results.
Proof.
  revert acc. induction results as [|[bench t] results IH]; simpl;
    intros acc Hnd Hdis.
  - now rewrite app_nil_r.
  - inversion Hnd; subst. rewrite set_fresh by (apply Hdis; auto).
    rewrite IH; auto.
    + now rewrite <- app_assoc.
    + intros k Hin. unfold Dict.keys. rewrite map_app, in_app_iff. simpl.
      intros [H|[H|[]]].
      * apply (Hdis k); auto.
      * subst. contradiction.
Qed.

Lemma get_map_ratio (base results : dict Q) bench :
  Dict.get
    (map (fun item => (fst item, ratio base (fst item) (snd item))) results)
    bench =
  option_map (ratio base bench) (Dict.get results bench).
Proof.
  induction results as [|[k t] results IH]; simpl; auto.
  destruct (String.eqb bench k) eqn:E; auto.
  apply String.eqb_eq in E. now subst.
Qed.

(** What [evaluate] does, run by run. *)
Lemma evaluate_eq (candidate : OptimizationCandidate) ev :
  evaluate subprocess_run candidate ev =
  match _run_criterion_bench subprocess_run (feature_flags candidate) ev with
  | (Raise e, ev1) => (Raise e, ev1)
  | (Return results, ev1) =>
      match _baseline_results ev1 with
      | Some base => (for_each results (relative_entry base) [], ev1)
      | None =>
          match capture_baseline subprocess_run ev1 with
          | (Raise e, ev2) => (Raise e, ev2)
          | (Return base, ev2) =>
              (for_each results (relative_entry base) [], ev2)
          end
      end
  end.
Proof.
  unfold evaluate, bind, ret.
  destruct (_run_criterion_bench subprocess_run (feature_flags candidate) ev)
    as [[results|e] ev1]; auto.
  destruct (_baseline_results ev1) as [base|] eqn:Hb.
  - now rewrite Hb.
  - unfold capture_baseline, bind.
    destruct (_run_criterion_bench subprocess_run [] ev1)
      as [[base|e] ev2]; auto.
Qed.

Lemma capture_baseline_sets ev base ev' :
  capture_baseline subprocess_run ev = (Return base, ev') ->
  _baseline_results ev' = Some base.
Proof.
  unfold capture_baseline, bind.
  destruct (_run_criterion_bench subprocess_run [] ev) as [[b|e] ev1];
    intros H; inversion H; subst; auto.
Qed.

(** The only exception that leaves the evaluator is the timeout of the
    external run. *)
Lemma run_criterion_bench_raises features ev e ev' :
  _run_criterion_bench subprocess_run features ev = (Raise e, ev') ->
  e = TimeoutExpired.
Proof.
  unfold _run_criterion_bench.
  destruct (subprocess_run (runs ev) (bench_command features))
    as [rc report|].
  - destruct (negb (rc =? 0)%Z); discriminate.
  - intros H; inversion H; auto.
Qed.

Lemma capture_baseline_raises ev e ev' :
  capture_baseline subprocess_run ev = (Raise e, ev') -> e = TimeoutExpired.
Proof.
  unfold capture_baseline, bind.
  destruct (_run_criterion_bench subprocess_run [] ev) as [[b|e0] ev1] eqn:E;
    intros H; inversion H; subst.
  eapply run_criterion_bench_raises; eauto.
Qed.

Lemma evaluate_raises candidate ev e ev' :
  evaluate subprocess_run candidate ev = (Raise e, ev') ->
  e = TimeoutExpired.
Proof.
  rewrite evaluate_eq.
  destruct (_run_criterion_bench subprocess_run (feature_flags candidate) ev)
    as [[results|e0] ev1] eqn:E.
  - destruct (_baseline_results ev1) as [base|].
    + rewrite for_each_relative. discriminate.
    + destruct (capture_baseline subprocess_run ev1) as [[base|e1] ev2] eqn:C.
      * rewrite for_each_relative. discriminate.
      * intros H; inversion H; subst.
        eapply capture_baseline_raises; eauto.
  - intros H; inversion H; subst.
    eapply run_criterion_bench_raises; eauto.
Qed.

(** When [evaluate] returns, the baseline is cached and the result lists
    the benchmarks of the fresh run, each with its [ratio]. *)
Lemma evaluate_returns candidate ev results ev1 relative ev' :
  _run_criterion_bench subprocess_run (feature_flags candidate) ev =
    (Return results, ev1) ->
  Dict.wf results ->
  evaluate subprocess_run candidate ev = (Return relative, ev') ->
  exists base,
    _baseline_results ev' = Some base /\
    relative =
      map (fun item => (fst item, ratio base (fst item) (snd item))) results.
Proof.
  intros Hrun Hwf. rewrite evaluate_eq, Hrun.
  assert (Hmap : forall base,
             for_each results (relative_entry base) [] =
             Return (map (fun item =>
                            (fst item, ratio base (fst item) (snd item)))
                         results)).
  { intros base. rewrite for_each_relative, fold_set_fresh; auto. }
  destruct (_baseline_results ev1) as [base|] eqn:Hb.
  - rewrite Hmap. intros H; inversion H; subst. eauto.
  - destruct (capture_baseline subprocess_run ev1) as [[base|e1] ev2] eqn:C;
      [|discriminate].
    rewrite Hmap. intros H; inversion H; subst.
    exists base. split; auto. eapply capture_baseline_sets; eauto.
Qed.

End EvaluatorFacts.

(** ** Claims on the evaluator *)

Section EvaluatorClaims.
Variable subprocess_run : nat -> list string -> ProcessOutcome.

(** C1, as amended.  A benchmark of the fresh run that the cached baseline
    does not know is not left out of the result of [evaluate]: it is there
    with the ratio 1.0. *)
Theorem evaluate_absent_from_baseline
    candidate ev results ev1 relative ev' base bench :
  _run_criterion_bench subprocess_run (feature_flags candidate) ev =
    (Return results, ev1) ->
  Dict.wf results ->
  evaluate subprocess_run candidate ev = (Return relative, ev') ->
  _baseline_results ev' = Some base ->
  In bench (Dict.keys results) ->
  Dict.get base bench = None ->
  Dict.get relative bench = Some 1%Q.
Proof.
  intros Hrun Hwf Hev Hbase Hin Habs.
  destruct (evaluate_returns _ _ _ _ _ _ _ Hrun Hwf Hev) as (base' & Hb & ->).
  rewrite Hbase in Hb. inversion Hb; subst base'.
  rewrite get_map_ratio.
  destruct (Dict.get results bench) as [t|] eqn:G.
  - simpl. unfold ratio. now rewrite Habs.
  - apply get_None_notin in G. contradiction.
Qed.


End EvaluatorClaims.

(** C1, as stated, fails: with a baseline that lacks [commands/set_direct],
    the result of [evaluate] still lists that benchmark, with ratio 1.0. *)
Lemma evaluate_keeps_unmatched_benchmark :
  exists relative ev',
    evaluate Examples.world_ok (baseline CODE_OPTIMIZATIONS)
      Examples.partial_evaluator = (Return relative, ev') /\
    Dict.get Examples.report "commands/set_direct" = Some 80%Q /\
    Dict.get Examples.partial_baseline "commands/set_direct" = None /\
    Dict.get relative "commands/set_direct" = Some 1%Q.
Proof.
  eexists. eexists. split; [reflexivity|]. repeat split.
Qed.

Lemma report_wf : Dict.wf Examples.report.
Proof.
  unfold Dict.wf. simpl.
  repeat constructor; simpl; intuition discriminate.
Defined.

Lemma evaluate_absent_from_baseline_witness :
  Dict.get
    [ ("commands/get_direct", (100 / 50)%Q);
      ("commands/set_direct", 1%Q);
      ("commands/ping", 1%Q) ]%string
    "commands/ping" = Some 1%Q.
Proof.
  apply (evaluate_absent_from_baseline Examples.world_ok
           (baseline CODE_OPTIMIZATIONS) Examples.partial_evaluator
           Examples.report
           {| _baseline_results := Some Examples.partial_baseline;
              runs := 1 |}
           _
           {| _baseline_results := Some Examples.partial_baseline;
              runs := 1 |}
           Examples.partial_baseline).
  - reflexivity.
  - exact report_wf.
  - reflexivity.
  - reflexivity.
  - simpl. tauto.
  - reflexivity.
Defined.


(** ** The baseline capture *)

Section BaselineClaims.
Variable REGISTRY : dict CodeOptimization.
Variable subprocess_run : nat -> list string -> ProcessOutcome.

Lemma capture_baseline_timeout ev :
  subprocess_run (runs ev) (bench_command []) = TimedOut ->
  capture_baseline subprocess_run ev =
  (Raise TimeoutExpired,
   {| _baseline_results := _baseline_results ev; runs := S (runs ev) |}).
Proof.
  intros H. unfold capture_baseline, bind, _run_criterion_bench.
  now rewrite H.
Qed.

Lemma capture_baseline_nonzero ev returncode report :
  subprocess_run (runs ev) (bench_command []) = Completed returncode report ->
  returncode <> 0%Z ->
  capture_baseline subprocess_run ev =
  (Return [], {| _baseline_results := Some []; runs := S (runs ev) |}).
Proof.
  intros H Hrc. unfold capture_baseline, bind, _run_criterion_bench.
  rewrite H. apply Z.eqb_neq in Hrc. now rewrite Hrc.
Qed.

(** With an empty baseline every ratio is 1.0. *)
Lemma evaluate_empty_baseline candidate ev relative ev' :
  _baseline_results ev = Some [] ->
  evaluate subprocess_run candidate ev = (Return relative, ev') ->
  forall bench r, In (bench, r) (Dict.items relative) -> r = 1%Q.
Proof.
  intros Hb. rewrite evaluate_eq.
  destruct (_run_criterion_bench subprocess_run (feature_flags candidate) ev)
    as [[results|e] ev1] eqn:E; [|discriminate].
  assert (Hb1 : _baseline_results ev1 = Some []).
  { revert E. unfold _run_criterion_bench.
    destruct (subprocess_run (runs ev) (bench_command (feature_flags candidate)))
      as [rc rep|]; [|discriminate].
    destruct (negb (rc =? 0)%Z); intros H; inversion H; subst; simpl; auto. }
  rewrite Hb1, for_each_relative. intros H; inversion H; subst. clear H.
  assert (G : forall (l acc : dict Q),
             (forall b r, In (b, r) acc -> r = 1%Q) ->
             forall b r,
               In (b, r)
                 (fold_left
                    (fun d item =>
                       Dict.set d (fst item) (ratio [] (fst item) (snd item)))
                    l acc) -> r = 1%Q).
  { induction l as [|[k t] l IH]; simpl; intros acc Hacc b r Hin.
    - eauto.
    - eapply IH; [|exact Hin]. clear - Hacc. intros b0 r0.
      unfold ratio. simpl.
      induction acc as [|[k' v'] acc IHacc]; simpl.
      + intros [H|[]]. now inversion H.
      + destruct (String.eqb k k'); simpl.
        * intros [H|H]; [now inversion H | eapply Hacc; right; eauto].
        * intros [H|H]; [eapply Hacc; left; eauto|].
          apply IHacc; auto. intros; eapply Hacc; right; eauto. }
  intros bench r. apply G. intros ? ? [].
Qed.

(** C2, as amended.  A timeout of the external run makes
    [capture_baseline] raise, and [run_incremental] then ends before any
    candidate is tested; a non-zero exit status raises nothing:
    [capture_baseline] returns and caches the empty baseline, and every later
    ratio is the neutral 1.0. *)
Theorem capture_baseline_failure :
  (forall ev,
     subprocess_run (runs ev) (bench_command []) = TimedOut ->
     fst (capture_baseline subprocess_run ev) = Raise TimeoutExpired) /\
  (forall self,
     use_criterion self = true ->
     subprocess_run (runs (criterion_eval self)) (bench_command []) =
       TimedOut ->
     exists self',
       run_incremental REGISTRY subprocess_run self =
         (Raise TimeoutExpired, self') /\
       _history self' = _history self /\
       _best self' = _best self /\
       written self' = written self) /\
  (forall ev returncode report,
     subprocess_run (runs ev) (bench_command []) =
       Completed returncode report ->
     returncode <> 0%Z ->
     exists ev',
       capture_baseline subprocess_run ev = (Return [], ev') /\
       _baseline_results ev' = Some [] /\
       forall candidate relative ev'',
         evaluate subprocess_run candidate ev' = (Return relative, ev'') ->
         forall bench r, In (bench, r) (Dict.items relative) -> r = 1%Q).
Proof.
  split; [|split].
  - intros ev H. now rewrite capture_baseline_timeout.
  - intros self Hc H. unfold run_incremental. rewrite Hc.
    unfold bind at 1. rewrite capture_baseline_timeout by exact H.
    eexists. split; [reflexivity|]. simpl. auto.
  - intros ev rc report H Hrc. eexists. split; [|split].
    + eapply capture_baseline_nonzero; eauto.
    + reflexivity.
    + intros candidate relative ev''. apply evaluate_empty_baseline.
      reflexivity.
Qed.

End BaselineClaims.

(** C2, as stated, fails: the external run of the baseline capture exits
    with status 101, yet [capture_baseline] raises nothing and caches an
    empty baseline; the candidate evaluated next gets the ratio 1.0 for each
    of its benchmarks. *)
Lemma capture_baseline_swallows_exit_status :
  Examples.world_exit_101 0 (bench_command []) =
    Completed 101 Examples.report /\
  capture_baseline Examples.world_exit_101 Examples.fresh_evaluator =
    (Return [], {| _baseline_results := Some []; runs := 1 |}) /\
  fst (evaluate Examples.world_exit_101 (all_enabled CODE_OPTIMIZATIONS)
         {| _baseline_results := Some []; runs := 1 |}) =
    Return [ ("commands/get_direct", 1%Q);
             ("commands/set_direct", 1%Q);
             ("commands/ping", 1%Q) ]%string.
Proof. repeat split. Qed.

Lemma capture_baseline_failure_witness :
  fst (capture_baseline Examples.world_timeout Examples.fresh_evaluator) =
    Raise TimeoutExpired /\
  (exists self',
     run_incremental CODE_OPTIMIZATIONS Examples.world_timeout
       (new_evolver true) = (Raise TimeoutExpired, self') /\
     _history self' = [] /\ _best self' = None /\ written self' = []) /\
  (exists ev',
     capture_baseline Examples.world_exit_101 Examples.fresh_evaluator =
       (Return [], ev') /\
     _baseline_results ev' = Some [] /\
     forall candidate relative ev'',
       evaluate Examples.world_exit_101 candidate ev' =
         (Return relative, ev'') ->
       forall bench r, In (bench, r) (Dict.items relative) -> r = 1%Q).
Proof.
  split; [|split].
  - apply (proj1 (capture_baseline_failure CODE_OPTIMIZATIONS
                    Examples.world_timeout) Examples.fresh_evaluator).
    reflexivity.
  - apply (proj1 (proj2 (capture_baseline_failure CODE_OPTIMIZATIONS
                           Examples.world_timeout)) (new_evolver true));
      reflexivity.
  - apply (proj2 (proj2 (capture_baseline_failure CODE_OPTIMIZATIONS
                           Examples.world_exit_101))
             Examples.fresh_evaluator 101%Z Examples.report).
    + reflexivity.
    + discriminate.
Defined.

(** ** Feature flags *)

Lemma feature_flags_filter_keys (d : dict bool) :
  NoDup (Dict.keys d) ->
  map fst (filter (fun item => snd item) d) =
  filter (fun k => match Dict.get d k with Some true => true | _ => false end)
    (Dict.keys d).
Proof.
  induction d as [|[k b] d IH]; simpl; intros Hnd; auto.
  inversion Hnd as [|? ? Hk Hnd']; subst.
  rewrite String.eqb_refl.
  assert (E : filter
                (fun k0 =>
                   match (if String.eqb k0 k then Some b else Dict.get d k0)
                   with Some true => true | _ => false end) (Dict.keys d) =
              filter
                (fun k0 =>
                   match Dict.get d k0 with Some true => true | _ => false end)
                (Dict.keys d)).
  { apply filter_ext_in. intros k0 Hin.
    destruct (String.eqb k0 k) eqn:E; auto.
    apply String.eqb_eq in E. subst. contradiction. }
  rewrite E, <- IH by assumption. destruct b; reflexivity.
Qed.

Lemma feature_flags_in (c : OptimizationCandidate) (n : string) :
  Dict.wf (enabled c) ->
  (In n (feature_flags c) <-> Dict.get (enabled c) n = Some true).
Proof.
  intros Hwf. unfold feature_flags, Dict.items.
  rewrite feature_flags_filter_keys by exact Hwf.
  rewrite filter_In. split.
  - intros [_ H]. destruct (Dict.get (enabled c) n) as [[|]|]; congruence.
  - intros H. split; [eapply get_Some_in; eauto | now rewrite H].
Qed.

(** C3, as amended.  [feature_flags] lists the enabled names in the
    insertion order of the [enabled] map, without sorting: it is the key
    list of the map with the disabled names removed.  Hence two candidates
    whose maps hold the same keys in the same order and enable the same names
    yield identical flag lists. *)
Theorem feature_flags_insertion_order (c1 c2 : OptimizationCandidate) :
  Dict.wf (enabled c1) ->
  Dict.wf (enabled c2) ->
  Dict.keys (enabled c1) = Dict.keys (enabled c2) ->
  (forall n, Dict.get (enabled c1) n = Some true <->
             Dict.get (enabled c2) n = Some true) ->
  feature_flags c1 =
    filter (fun k => match Dict.get (enabled c1) k with
                     | Some true => true
                     | _ => false
                     end) (Dict.keys (enabled c1)) /\
  feature_flags c1 = feature_flags c2.
Proof.
  intros Hwf1 Hwf2 Hkeys Hsame. unfold feature_flags, Dict.items.
  rewrite !feature_flags_filter_keys by assumption. split; auto.
  rewrite <- Hkeys. apply filter_ext. intros k.
  specialize (Hsame k).
  destruct (Dict.get (enabled c1) k) as [[|]|],
           (Dict.get (enabled c2) k) as [[|]|]; auto;
    destruct Hsame as [H1 H2];
    try (specialize (H1 eq_refl); discriminate);
    try (specialize (H2 eq_refl); discriminate).
Qed.

(** C3, as stated, fails: two candidates that enable the same two names,
    built from differently ordered inputs, have different flag lists, and
    one of the lists is not in lexicographic order. *)
Lemma feature_flags_follow_input_order :
  (forall n, Dict.get (enabled Examples.atoi_then_zero_copy) n =
             Dict.get (enabled Examples.zero_copy_then_atoi) n) /\
  feature_flags Examples.atoi_then_zero_copy =
    ["opt-atoi-parse"; "opt-zero-copy-get"]%string /\
  feature_flags Examples.zero_copy_then_atoi =
    ["opt-zero-copy-get"; "opt-atoi-parse"]%string /\
  feature_flags Examples.atoi_then_zero_copy <>
    feature_flags Examples.zero_copy_then_atoi /\
  sorted_names (feature_flags Examples.zero_copy_then_atoi) = false /\
  sorted_names (feature_flags (all_enabled CODE_OPTIMIZATIONS)) = false.
Proof.
  split.
  - intros n. simpl.
    destruct (String.eqb n "opt-atoi-parse") eqn:E1,
             (String.eqb n "opt-zero-copy-get") eqn:E2; auto.
  - repeat split. discriminate.
Qed.

Lemma feature_flags_insertion_order_witness :
  feature_flags (all_enabled CODE_OPTIMIZATIONS) =
    filter (fun k => match Dict.get
                             (enabled (all_enabled CODE_OPTIMIZATIONS)) k with
                     | Some true => true
                     | _ => false
                     end)
      (Dict.keys (enabled (all_enabled CODE_OPTIMIZATIONS))) /\
  feature_flags (all_enabled CODE_OPTIMIZATIONS) =
    feature_flags
      (set_fitness (all_enabled CODE_OPTIMIZATIONS) 100).
Proof.
  apply (feature_flags_insertion_order (all_enabled CODE_OPTIMIZATIONS)
           (set_fitness (all_enabled CODE_OPTIMIZATIONS) 100)).
  - unfold Dict.wf. simpl. repeat constructor; simpl; intuition discriminate.
  - unfold Dict.wf. simpl. repeat constructor; simpl; intuition discriminate.
  - reflexivity.
  - intros n. reflexivity.
Defined.

(** ** The fitness reduction *)

Lemma relevant_hot_ratios (relative : dict Q) :
  relevant relative = hot_ratios relative.
Proof.
  unfold relevant, hot_ratios, Dict.items. f_equal. apply filter_ext.
  intros [k v]. unfold is_hot, hot_paths. simpl. now rewrite orb_false_r.
Qed.

Lemma avg_improvement_eq (relative : dict Q) :
  avg_improvement relative = Return (fitness_factor relative).
Proof.
  unfold avg_improvement, fitness_factor. rewrite relevant_hot_ratios.
  destruct (hot_ratios relative) as [|r rel] eqn:E; reflexivity.
Qed.

(** ** The incremental strategy, step by step *)

Section IncrementalFacts.
Variable subprocess_run : nat -> list string -> ProcessOutcome.

(** One step, by the outcome of the fitness computation. *)
Lemma incremental_step_eq criterion st opt :
  incremental_step subprocess_run criterion st opt =
  let test := test_candidate (current st) opt in
  match incremental_fitness subprocess_run criterion opt (current st) test
          (inc_eval st), fitness (current st) with
  | (Return f, ev'), Some cf =>
      if Qgtb f cf then
        {| current := set_fitness test f;
           inc_best := Some (set_fitness test f);
           inc_history :=
             inc_history st ++ [StepEntry (name opt) f (Qgtb f f) f];
           inc_eval := ev' |}
      else
        {| current := current st;
           inc_best := inc_best st;
           inc_history :=
             inc_history st ++ [StepEntry (name opt) f (Qgtb f cf) cf];
           inc_eval := ev' |}
  | (Return f, ev'), None =>
      {| current := current st;
         inc_best := inc_best st;
         inc_history := inc_history st ++ [ErrorEntry (name opt) TypeError];
         inc_eval := ev' |}
  | (Raise e, ev'), _ =>
      {| current := current st;
         inc_best := inc_best st;
         inc_history := inc_history st ++ [ErrorEntry (name opt) e];
         inc_eval := ev' |}
  end.
Proof.
  unfold incremental_step, incremental_try, bind, lift, ret, get_fitness.
  cbv zeta.
  destruct (incremental_fitness subprocess_run criterion opt (current st)
              (test_candidate (current st) opt) (inc_eval st))
    as [[f|e] ev']; [|now destruct (fitness (current st))].
  destruct (fitness (current st)) as [cf|] eqn:Hcf; auto.
  destruct (Qgtb f cf) eqn:Hgt; simpl; auto.
  rewrite Hcf. simpl. now rewrite Hgt.
Qed.


Lemma incremental_fitness_returns opt cur test ev relative ev' cf :
  fitness cur = Some cf ->
  evaluate subprocess_run test ev = (Return relative, ev') ->
  incremental_fitness subprocess_run true opt cur test ev =
  (Return (cf * fitness_factor relative)%Q, ev').
Proof.
  intros H E. unfold incremental_fitness, bind, lift, ret, get_fitness.
  now rewrite E, avg_improvement_eq, H.
Qed.

Lemma incremental_fitness_raises opt cur test ev e ev' :
  evaluate subprocess_run test ev = (Raise e, ev') ->
  incremental_fitness subprocess_run true opt cur test ev = (Raise e, ev').
Proof.
  intros E. unfold incremental_fitness, bind. now rewrite E.
Qed.

(** Each step appends one entry, and a step entry never says "accepted". *)
Lemma incremental_step_entry criterion st opt :
  exists entry,
    inc_history (incremental_step subprocess_run criterion st opt) =
      inc_history st ++ [entry] /\
    match entry with
    | StepEntry n _ acc _ => n = name opt /\ acc = false
    | ErrorEntry n _ => n = name opt
    | ComboEntry _ _ _ => False
    end.
Proof.
  rewrite incremental_step_eq. cbv zeta.
  destruct (incremental_fitness subprocess_run criterion opt (current st)
              (test_candidate (current st) opt) (inc_eval st))
    as [[f|e] ev']; [|eexists; split; [reflexivity|reflexivity]].
  destruct (fitness (current st)) as [cf|];
    [|eexists; split; [reflexivity|reflexivity]].
  destruct (Qgtb f cf) eqn:Hgt; eexists; (split; [reflexivity|]); simpl.
  - split; auto. apply Qgtb_irrefl.
  - auto.
Qed.

(** A step whose evaluation raises leaves the search where it was and
    records the error. *)
Lemma incremental_step_error st opt e ev' :
  evaluate subprocess_run (test_candidate (current st) opt) (inc_eval st) =
    (Raise e, ev') ->
  incremental_step subprocess_run true st opt =
  {| current := current st;
     inc_best := inc_best st;
     inc_history := inc_history st ++ [ErrorEntry (name opt) e];
     inc_eval := ev' |}.
Proof.
  intros E. rewrite incremental_step_eq. cbv zeta.
  rewrite (incremental_fitness_raises _ _ _ _ _ _ E).
  now destruct (fitness (current st)).
Qed.

End IncrementalFacts.

(** ** The stable sort *)

Section SortFacts.
Context {A : Type}.
Variable le : A -> A -> bool.

Lemma insert_perm x l : Permutation (insert le x l) (x :: l).
Proof.
  induction l as [|y l IH]; simpl; auto.
  destruct (le x y); auto.
  rewrite IH. apply perm_swap.
Qed.

Lemma stable_sort_perm l : Permutation (stable_sort le l) l.
Proof.
  induction l as [|x l IH]; simpl; auto.
  rewrite insert_perm. now constructor.
Qed.

Lemma stable_sort_length l : List.length (stable_sort le l) = List.length l.
Proof. apply Permutation_length, stable_sort_perm. Qed.

(** An element goes in front of the elements of a class [p] when it is in
    [p] itself; otherwise the class does not see it. *)
Lemma insert_filter (p : A -> bool) x l :
  (p x = true -> forall y, p y = true -> le x y = true) ->
  filter p (insert le x l) = filter p (x :: l).
Proof.
  intros Hp. induction l as [|y l IH]; auto.
  cbn [insert]. destruct (le x y) eqn:Hxy; auto.
  cbn [filter] in *. rewrite IH.
  destruct (p x) eqn:Px; auto.
  destruct (p y) eqn:Py; auto.
  rewrite (Hp eq_refl y Py) in Hxy. discriminate.
Qed.

(** Stability: the members of a class of mutually ordered elements keep
    the order they had. *)
Lemma stable_sort_filter (p : A -> bool) l :
  (forall x y, p x = true -> p y = true -> le x y = true) ->
  filter p (stable_sort le l) = filter p l.
Proof.
  intros Hp. induction l as [|x l IH]; auto.
  cbn [stable_sort]. rewrite insert_filter by eauto.
  cbn [filter]. now rewrite IH.
Qed.

Hypothesis le_total : forall x y, le x y = true \/ le y x = true.
Hypothesis le_trans :
  forall x y z, le x y = true -> le y z = true -> le x z = true.

Lemma insert_sorted x l :
  StronglySorted (fun a b => le a b = true) l ->
  StronglySorted (fun a b => le a b = true) (insert le x l).
Proof.
  induction 1 as [|y l Hs IH Hy]; simpl.
  - repeat constructor.
  - destruct (le x y) eqn:Hxy.
    + constructor; [now constructor|].
      constructor; auto.
      eapply Forall_impl; [|exact Hy]. simpl. eauto.
    + constructor; auto.
      assert (Hyx : le y x = true)
        by (destruct (le_total x y); congruence).
      eapply Permutation_Forall.
      * symmetry. apply insert_perm.
      * constructor; auto.
  Qed.

Lemma stable_sort_sorted l :
  StronglySorted (fun a b => le a b = true) (stable_sort le l).
Proof.
  induction l as [|x l IH]; simpl; [constructor | now apply insert_sorted].
Qed.

End SortFacts.

(** ** The incremental strategy in mock mode *)







Section MockFacts.
Variable REGISTRY : dict CodeOptimization.
Variable subprocess_run : nat -> list string -> ProcessOutcome.



End MockFacts.


Section MockClaim.
Variable REGISTRY : dict CodeOptimization.
Variable subprocess_run : nat -> list string -> ProcessOutcome.


End MockClaim.



(** The shipped registry is keyed by the names of its entries. *)
Lemma shipped_registry_keys :
  Dict.keys CODE_OPTIMIZATIONS = map name (Dict.values CODE_OPTIMIZATIONS).
Proof. reflexivity. Qed.

(** The mock run on the shipped registry, computed. *)
Lemma mock_incremental_shipped :
  exists best self' f,
    run_incremental CODE_OPTIMIZATIONS Examples.world_timeout
      (new_evolver false) = (Return (Some best), self') /\
    feature_flags best = Dict.keys CODE_OPTIMIZATIONS /\
    fitness best = Some f /\
    (f == 114.81339421825)%Q.
Proof.
  eexists. eexists. eexists. split; [reflexivity|].
  split; [reflexivity|]. split; [reflexivity|]. vm_compute. reflexivity.
Qed.

(** ** The accept/reject flag of the history *)

(** C4, at the failing input: in the mock run on the shipped registry the
    first tested candidate has fitness 104 against a current fitness of 100
    and replaces [current] (the returned best has the optimization enabled),
    yet the history entry of that step says [accepted = false]. *)
Theorem incremental_history_accepted_flag :
  exists best self' entry rest,
    run_incremental CODE_OPTIMIZATIONS Examples.world_timeout
      (new_evolver false) = (Return (Some best), self') /\
    _history self' = entry :: rest /\
    entry =
      StepEntry "opt-single-key-alloc" (100 * (1 + 0.04)) false
        (100 * (1 + 0.04)) /\
    Qgtb (100 * (1 + 0.04)) 100 = true /\
    Dict.get (enabled best) "opt-single-key-alloc" = Some true.
Proof.
  eexists. eexists. eexists. eexists.
  split; [reflexivity|]. split; [reflexivity|]. repeat split.
Qed.

(** ** The combinatorial strategy, step by step *)

Section CombinatorialFacts.
Variable REGISTRY : dict CodeOptimization.
Variable subprocess_run : nat -> list string -> ProcessOutcome.

(** One iteration, by the outcome of the fitness computation. *)
Lemma combinatorial_step_eq criterion st cand :
  combinatorial_step REGISTRY subprocess_run criterion st cand =
  match combinatorial_fitness REGISTRY subprocess_run criterion cand
          (comb_eval st) with
  | (Return f, ev') =>
      let entry := ComboEntry (summary cand) f (enabled cand) in
      match comb_best st with
      | None =>
          {| comb_best := Some (set_fitness cand f);
             comb_history := comb_history st ++ [entry];
             comb_eval := ev' |}
      | Some b =>
          match fitness b with
          | Some bf =>
              {| comb_best :=
                   if Qgtb f bf then Some (set_fitness cand f) else Some b;
                 comb_history := comb_history st ++ [entry];
                 comb_eval := ev' |}
          | None =>
              {| comb_best := comb_best st;
                 comb_history := comb_history st;
                 comb_eval := ev' |}
          end
      end
  | (Raise e, ev') =>
      {| comb_best := comb_best st;
         comb_history := comb_history st;
         comb_eval := ev' |}
  end.
Proof.
  unfold combinatorial_step, combinatorial_try, bind, lift, ret, get_fitness.
  destruct (combinatorial_fitness REGISTRY subprocess_run criterion cand
              (comb_eval st)) as [[f|e] ev']; auto.
  destruct (comb_best st) as [b|] eqn:Hb; auto.
  destruct (fitness b) as [bf|]; auto.
Qed.

Lemma combinatorial_fitness_returns cand ev relative ev' :
  evaluate subprocess_run cand ev = (Return relative, ev') ->
  combinatorial_fitness REGISTRY subprocess_run true cand ev =
  (Return (100 * fitness_factor relative)%Q, ev').
Proof.
  intros E. unfold combinatorial_fitness, bind, lift, ret.
  now rewrite E, avg_improvement_eq.
Qed.

Lemma combinatorial_fitness_raises cand ev e ev' :
  evaluate subprocess_run cand ev = (Raise e, ev') ->
  combinatorial_fitness REGISTRY subprocess_run true cand ev = (Raise e, ev').
Proof.
  intros E. unfold combinatorial_fitness, bind. now rewrite E.
Qed.

(** An iteration whose evaluation raises changes neither the running best
    nor the history. *)
Lemma combinatorial_step_error st cand e ev' :
  evaluate subprocess_run cand (comb_eval st) = (Raise e, ev') ->
  combinatorial_step REGISTRY subprocess_run true st cand =
  {| comb_best := comb_best st;
     comb_history := comb_history st;
     comb_eval := ev' |}.
Proof.
  intros E. rewrite combinatorial_step_eq.
  now rewrite (combinatorial_fitness_raises _ _ _ _ E).
Qed.




End CombinatorialFacts.

(** ** The order on expected gains *)



Lemma StronglySorted_impl {A : Type} (R R' : A -> A -> Prop) (l : list A) :
  (forall a b, R a b -> R' a b) ->
  StronglySorted R l -> StronglySorted R' l.
Proof.
  intros HR. induction 1 as [|x l Hs IH Hx]; constructor; auto.
  eapply Forall_impl; [|exact Hx]. auto.
Qed.


(** ** The budget of the combinatorial strategy *)

Section BudgetClaim.
Variable REGISTRY : dict CodeOptimization.
Variable subprocess_run : nat -> list string -> ProcessOutcome.


End BudgetClaim.


(** A negative [max_combinations] is no budget: Python reads it as a slice
    from the end, so that [-1] selects 63 of the 64 candidates of the shipped
    registry. *)
Lemma combinatorial_negative_budget :
  List.length (power_set_candidates CODE_OPTIMIZATIONS) = 64%nat /\
  List.length (selected_candidates CODE_OPTIMIZATIONS (-1)) = 63%nat /\
  ~ (Z.of_nat (List.length (selected_candidates CODE_OPTIMIZATIONS (-1)))
     <= -1)%Z.
Proof. split; [reflexivity|]. split; [reflexivity|]. vm_compute. auto. Qed.

(** ** The fitness reduction in both strategies *)

Section FitnessClaim.
Variable REGISTRY : dict CodeOptimization.
Variable subprocess_run : nat -> list string -> ProcessOutcome.

(** C7.  With Criterion, the fitness given to the tested candidate is the
    previous fitness (the current fitness in the incremental strategy, 100
    in the combinatorial one) times the mean of the ratios of the hot
    benchmarks; when no benchmark is hot the factor is 1.0 and the fitness
    equals the previous fitness. *)
Theorem fitness_reduction :
  (forall st opt relative ev' cf,
     fitness (current st) = Some cf ->
     evaluate subprocess_run (test_candidate (current st) opt) (inc_eval st) =
       (Return relative, ev') ->
     exists accepted current_best,
       inc_history (incremental_step subprocess_run true st opt) =
         inc_history st ++
         [StepEntry (name opt) (cf * fitness_factor relative) accepted
            current_best] /\
       (hot_ratios relative <> [] ->
        fitness_factor relative = mean (hot_ratios relative)) /\
       (hot_ratios relative = [] -> (cf * fitness_factor relative == cf)%Q)) /\
  (forall st cand relative ev',
     (forall b, comb_best st = Some b -> fitness b <> None) ->
     evaluate subprocess_run cand (comb_eval st) = (Return relative, ev') ->
     comb_history (combinatorial_step REGISTRY subprocess_run true st cand) =
       comb_history st ++
       [ComboEntry (summary cand) (100 * fitness_factor relative)
          (enabled cand)] /\
     (hot_ratios relative <> [] ->
      fitness_factor relative = mean (hot_ratios relative)) /\
     (hot_ratios relative = [] -> (100 * fitness_factor relative == 100)%Q)).
Proof.
  assert (Hmean : forall relative,
             hot_ratios relative <> [] ->
             fitness_factor relative = mean (hot_ratios relative)).
  { intros relative H. unfold fitness_factor.
    destruct (hot_ratios relative); congruence. }
  assert (Hone : forall relative x,
             hot_ratios relative = [] -> (x * fitness_factor relative == x)%Q).
  { intros relative x H. unfold fitness_factor. rewrite H. ring. }
  split.
  - intros st opt relative ev' cf Hcf E.
    rewrite incremental_step_eq. cbv zeta.
    rewrite (incremental_fitness_returns _ _ _ _ _ _ _ _ Hcf E), Hcf.
    destruct (Qgtb (cf * fitness_factor relative) cf);
      eexists; eexists; (split; [reflexivity|]); split; auto.
  - intros st cand relative ev' Hbest E.
    rewrite combinatorial_step_eq.
    rewrite (combinatorial_fitness_returns _ _ _ _ _ _ E). cbv zeta.
    split; [|split; auto].
    destruct (comb_best st) as [b|] eqn:Hb; auto.
    destruct (fitness b) eqn:Hf; auto.
    exfalso. apply (Hbest b eq_refl). exact Hf.
Qed.

End FitnessClaim.

Lemma fitness_reduction_witness :
  (exists accepted current_best,
     inc_history
       (incremental_step Examples.world_ok true
          (incremental_start CODE_OPTIMIZATIONS (new_evolver true)
             Examples.partial_evaluator)
          Examples.single_key_alloc) =
       [StepEntry "opt-single-key-alloc"
          (100 * fitness_factor Examples.partial_relative) accepted
          current_best] /\
     (hot_ratios Examples.partial_relative <> [] ->
      fitness_factor Examples.partial_relative =
        mean (hot_ratios Examples.partial_relative)) /\
     (hot_ratios Examples.partial_relative = [] ->
      (100 * fitness_factor Examples.partial_relative == 100)%Q)) /\
  (comb_history
     (combinatorial_step CODE_OPTIMIZATIONS Examples.world_ok true
        {| comb_best := None;
           comb_history := [];
           comb_eval := Examples.partial_evaluator |}
        (all_enabled CODE_OPTIMIZATIONS)) =
     [ComboEntry (summary (all_enabled CODE_OPTIMIZATIONS))
        (100 * fitness_factor Examples.partial_relative)
        (enabled (all_enabled CODE_OPTIMIZATIONS))] /\
   (hot_ratios Examples.partial_relative <> [] ->
    fitness_factor Examples.partial_relative =
      mean (hot_ratios Examples.partial_relative)) /\
   (hot_ratios Examples.partial_relative = [] ->
    (100 * fitness_factor Examples.partial_relative == 100)%Q)).
Proof.
  split.
  - apply (proj1 (fitness_reduction CODE_OPTIMIZATIONS Examples.world_ok)
             (incremental_start CODE_OPTIMIZATIONS (new_evolver true)
                Examples.partial_evaluator)
             Examples.single_key_alloc Examples.partial_relative
             {| _baseline_results := Some Examples.partial_baseline;
                runs := 1 |}
             100%Q).
    + reflexivity.
    + reflexivity.
  - apply (proj2 (fitness_reduction CODE_OPTIMIZATIONS Examples.world_ok)
             {| comb_best := None;
                comb_history := [];
                comb_eval := Examples.partial_evaluator |}
             (all_enabled CODE_OPTIMIZATIONS) Examples.partial_relative
             {| _baseline_results := Some Examples.partial_baseline;
                runs := 1 |}).
    + intros b H. discriminate H.
    + reflexivity.
Defined.

(** The factor on the example: two hot benchmarks, ratios 2 and 1. *)
Lemma fitness_factor_example :
  hot_ratios Examples.partial_relative = [(100 / 50)%Q; 1%Q] /\
  (fitness_factor Examples.partial_relative == 1.5)%Q.
Proof. split; [reflexivity|]. vm_compute. reflexivity. Qed.

(** ** Failed evaluations *)

(** In the incremental strategy a timeout at the second optimization is
    recorded with the error marker and the search goes on. *)
Lemma incremental_records_failed_candidate :
  exists best self',
    run_incremental CODE_OPTIMIZATIONS (Examples.world_timeout_at 2)
      (new_evolver true) = (Return best, self') /\
    map is_error (_history self') =
      [false; true; false; false; false; false] /\
    nth_error (_history self') 1 =
      Some (ErrorEntry "opt-static-responses" TimeoutExpired) /\
    runs (criterion_eval self') = 7%nat.
Proof.
  eexists. eexists. split; [reflexivity|]. repeat split.
Qed.

(** C5, at the failing input: a combinatorial run with a budget of three
    candidates in which the external run of the second candidate times out.
    The evaluation of that candidate raises, the two other candidates are
    evaluated, and the history holds their two entries only: nothing in it
    stands for the failed candidate. *)
Theorem combinatorial_drops_failed_candidate :
  exists best self' first second third,
    selected_candidates CODE_OPTIMIZATIONS 3 = [first; second; third] /\
    fst (evaluate (Examples.world_timeout_at 2) second
           (comb_eval
              (combinatorial_step CODE_OPTIMIZATIONS
                 (Examples.world_timeout_at 2) true
                 (combinatorial_start (new_evolver true)) first))) =
      Raise TimeoutExpired /\
    run_combinatorial CODE_OPTIMIZATIONS (Examples.world_timeout_at 2)
      (new_evolver true) 3 = (Return best, self') /\
    map is_error (_history self') = [false; false] /\
    map (fun e => match e with
                  | ComboEntry _ _ en => Some en
                  | _ => None
                  end) (_history self') =
      [Some (enabled first); Some (enabled third)] /\
    runs (criterion_eval self') = 4%nat.
Proof.
  do 5 eexists. split; [reflexivity|]. split; [reflexivity|].
  split; [reflexivity|]. repeat split.
Qed.

(** ** Saving the results *)

Section SaveClaim.
Variable REGISTRY : dict CodeOptimization.

(** C6, as amended.  Without a best candidate [_save_results] raises
    nothing and writes one file, the results, in which the best candidate is
    absent and the list of best features is empty; no script is written. *)
Theorem save_results_without_best (self : CodeOptimizationEvolver) :
  _best self = None ->
  _save_results REGISTRY self =
  (Return tt,
   {| use_criterion := use_criterion self;
      criterion_eval := criterion_eval self;
      _history := _history self;
      _best := None;
      written :=
        written self ++
        [ResultsJson {| best_candidate := None;
                        best_features := [];
                        history := _history self |}] |}).
Proof.
  intros H. unfold _save_results. now rewrite H.
Qed.

End SaveClaim.

(** C6, as stated, fails: when every evaluation of a combinatorial run
    fails there is no best candidate, and the results that are written hold
    no best candidate at all, not the baseline. *)
Lemma save_results_records_no_best :
  exists self',
    run_combinatorial CODE_OPTIMIZATIONS Examples.world_timeout
      (new_evolver true) 64 = (Return None, self') /\
    written self' =
      [ResultsJson {| best_candidate := None;
                      best_features := [];
                      history := [] |}] /\
    best_candidate {| best_candidate := None;
                      best_features := [];
                      history := [] |} <>
      Some (to_dict CODE_OPTIMIZATIONS (baseline CODE_OPTIMIZATIONS)).
Proof.
  eexists. split; [vm_compute; reflexivity|].
  split; [reflexivity|]. discriminate.
Qed.

Lemma save_results_without_best_witness :
  _save_results CODE_OPTIMIZATIONS (new_evolver true) =
  (Return tt,
   {| use_criterion := true;
      criterion_eval := {| _baseline_results := None; runs := 0 |};
      _history := [];
      _best := None;
      written :=
        [ResultsJson {| best_candidate := None;
                        best_features := [];
                        history := [] |}] |}).
Proof.
  exact (save_results_without_best CODE_OPTIMIZATIONS (new_evolver true)
           eq_refl).
Defined.

(** ** The size of the power set *)

Lemma combinations_zero {A : Type} (l : list A) : combinations l 0 = [[]].
Proof. now destruct l. Qed.

Lemma combinations_beyond {A : Type} (l : list A) : forall r,
  (List.length l < r)%nat -> combinations l r = [].
Proof.
  induction l as [|x l IH]; intros r Hr.
  - destruct r; [inversion Hr | reflexivity].
  - destruct r as [|r]; [inversion Hr|]. simpl in *.
    rewrite !IH by lia. reflexivity.
Qed.

Lemma count_upto_succ {A : Type} (l : list A) n :
  count_upto l (S n) =
  (count_upto l n + List.length (combinations l n))%nat.
Proof.
  unfold count_upto. rewrite seq_S, map_app, list_sum_app. simpl. lia.
Qed.

Lemma count_upto_cons {A : Type} (x : A) (l : list A) n :
  count_upto (x :: l) (S n) = (count_upto l n + count_upto l (S n))%nat.
Proof.
  induction n as [|n IH].
  - unfold count_upto. simpl. now rewrite combinations_zero.
  - rewrite count_upto_succ, IH, !count_upto_succ.
    cbn [combinations]. rewrite length_app, length_map. lia.
Qed.

Lemma count_upto_full {A : Type} (l : list A) : forall n,
  (List.length l < n)%nat -> count_upto l n = (2 ^ List.length l)%nat.
Proof.
  induction l as [|x l IH]; intros n Hn.
  - induction n as [|n IHn]; [inversion Hn|].
    destruct n as [|n]; [reflexivity|].
    rewrite count_upto_succ, IHn by (simpl; lia).
    rewrite combinations_beyond by (simpl; lia). reflexivity.
  - destruct n as [|n]; [inversion Hn|]. simpl in Hn.
    rewrite count_upto_cons, !IH by lia. simpl. lia.
Qed.

(** The two nested loops of [run_combinatorial] build 2^N candidates. *)
Lemma power_set_candidates_length (REGISTRY : dict CodeOptimization) :
  List.length (power_set_candidates REGISTRY) =
  (2 ^ List.length REGISTRY)%nat.
Proof.
  unfold power_set_candidates. cbv zeta.
  rewrite length_flat_map.
  rewrite (map_ext _ (fun r => List.length
                                 (combinations (Dict.keys REGISTRY) r)))
    by (intros r; apply length_map).
  fold (count_upto (Dict.keys REGISTRY)
          (List.length (Dict.keys REGISTRY) + 1)).
  rewrite count_upto_full by lia.
  unfold Dict.keys. now rewrite length_map.
Qed.

(** * Further properties of the module *)

(** ** More on dictionaries *)

Lemma set_keeps_wf {V : Type} (d : dict V) k v :
  Dict.wf d -> Dict.wf (Dict.set d k v).
Proof.
  unfold Dict.wf. intros H. rewrite keys_set. unfold Dict.mem.
  destruct (Dict.get d k) eqn:G; auto.
  apply get_None_notin in G.
  apply NoDup_app; auto.
  - repeat constructor. simpl. tauto.
  - intros x Hx [<-|[]]. contradiction.
Qed.

Lemma fold_set_wf {V : Type} (f : string -> V) (ks : list string) :
  forall acc, Dict.wf acc ->
    Dict.wf (fold_left (fun d k => Dict.set d k (f k)) ks acc).
Proof.
  induction ks as [|k ks IH]; simpl; intros acc H; auto.
  apply IH. now apply set_keeps_wf.
Qed.

Lemma comp_wf {V : Type} (f : string -> V) (ks : list string) :
  Dict.wf (Dict.comp f ks).
Proof. apply fold_set_wf. constructor. Qed.

Lemma fold_set_get {V : Type} (f : string -> V) (ks : list string) :
  forall acc k,
    Dict.get (fold_left (fun d k => Dict.set d k (f k)) ks acc) k =
    if in_dec string_dec k ks then Some (f k) else Dict.get acc k.
Proof.
  induction ks as [|k0 ks IH]; simpl; intros acc k; auto.
  rewrite IH. destruct (in_dec string_dec k ks) as [Hin|Hn].
  - destruct (string_dec k0 k); auto.
  - destruct (string_dec k0 k) as [->|Hne].
    + apply get_set_same.
    + apply get_set_other. congruence.
Qed.

Lemma comp_get {V : Type} (f : string -> V) (ks : list string) k :
  Dict.get (Dict.comp f ks) k =
  if in_dec string_dec k ks then Some (f k) else None.
Proof. unfold Dict.comp. now rewrite fold_set_get. Qed.

Lemma in_set_cases {V : Type} (d : dict V) k v k' v' :
  In (k', v') (Dict.set d k v) -> In (k', v') d \/ (k' = k /\ v' = v).
Proof.
  induction d as [|[k0 v0] d IH]; simpl.
  - intros [H|[]]. inversion H; auto.
  - destruct (String.eqb k k0) eqn:E; simpl.
    + apply String.eqb_eq in E. subst.
      intros [H|H]; [inversion H; auto | auto].
    + intros [H|H]; auto. destruct (IH H); auto.
Qed.

Lemma fold_set_values {V : Type} (f : string -> V) (ks : list string) :
  forall acc k v,
    In (k, v) (fold_left (fun d k => Dict.set d k (f k)) ks acc) ->
    In (k, v) acc \/ v = f k.
Proof.
  induction ks as [|k0 ks IH]; simpl; intros acc k v H; auto.
  destruct (IH _ _ _ H) as [H'|H']; auto.
  apply in_set_cases in H'. destruct H' as [?|[-> ->]]; auto.
Qed.

Lemma filter_snd_all_false (d : dict bool) :
  (forall k v, In (k, v) d -> v = false) ->
  filter (fun item : string * bool => snd item) d = [].
Proof.
  induction d as [|[k v] d IH]; simpl; intros H; auto.
  rewrite (H k v) by auto. apply IH. intros; eapply H; eauto.
Qed.

Lemma filter_snd_all_true (d : dict bool) :
  (forall k v, In (k, v) d -> v = true) ->
  filter (fun item : string * bool => snd item) d = d.
Proof.
  induction d as [|[k v] d IH]; simpl; intros H; auto.
  rewrite (H k v) by auto. f_equal. apply IH. intros; eapply H; eauto.
Qed.

(** ** The baseline and the all-enabled candidate *)
Lemma baseline_no_flags (REGISTRY : dict CodeOptimization) :
  feature_flags (baseline REGISTRY) = [].
Proof.
  unfold feature_flags, Dict.items. cbn [baseline enabled].
  rewrite filter_snd_all_false; auto.
  intros k v H. unfold Dict.comp in H.
  apply fold_set_values in H. destruct H as [[]|H]; auto.
Qed.

Section CandidateExtras.
Variable REGISTRY : dict CodeOptimization.

(** X1.  The baseline candidate maps every name of the registry to False and
    no other name; it has no feature flag, its cargo feature string is
    empty, its summary is [baseline], and evaluating it runs the same
    command as the baseline capture. *)
Theorem baseline_disables_everything :
  (forall n, Dict.get (enabled (baseline REGISTRY)) n =
             if Dict.mem REGISTRY n then Some false else None) /\
  feature_flags (baseline REGISTRY) = [] /\
  cargo_features (baseline REGISTRY) = ""%string /\
  summary (baseline REGISTRY) = "[baseline]"%string /\
  bench_command (feature_flags (baseline REGISTRY)) = bench_command [].
Proof.
  pose proof (baseline_no_flags REGISTRY) as F.
  split; [|split; [exact F|]].
  - intros n. cbn [baseline enabled]. rewrite comp_get. unfold Dict.mem.
    destruct (in_dec string_dec n (Dict.keys REGISTRY)) as [Hin|Hn].
    + destruct (Dict.get REGISTRY n) eqn:G; auto.
      apply get_None_notin in G. contradiction.
    + apply get_None_notin in Hn. now rewrite Hn.
  - unfold cargo_features, summary. rewrite F. repeat split.
Qed.

(** X2.  For a registry with distinct keys, all_enabled() maps every
    registry name to True and no other name, and its feature flags are
    the registry names in registry order. *)
Theorem all_enabled_flags :
  Dict.wf REGISTRY ->
  feature_flags (all_enabled REGISTRY) = Dict.keys REGISTRY /\
  (forall n, Dict.get (enabled (all_enabled REGISTRY)) n =
             if Dict.mem REGISTRY n then Some true else None).
Proof.
  intros Hwf. split.
  - unfold feature_flags, Dict.items. cbn [all_enabled enabled].
    rewrite comp_NoDup by exact Hwf.
    rewrite filter_snd_all_true.
    + rewrite map_map. simpl. apply map_id.
    + intros k v H. apply in_map_iff in H. destruct H as (k' & E & _).
      now inversion E.
  - intros n. cbn [all_enabled enabled]. rewrite comp_get. unfold Dict.mem.
    destruct (in_dec string_dec n (Dict.keys REGISTRY)) as [Hin|Hn].
    + destruct (Dict.get REGISTRY n) eqn:G; auto.
      apply get_None_notin in G. contradiction.
    + apply get_None_notin in Hn. now rewrite Hn.
Qed.

End CandidateExtras.

(** ** The evaluator and its cache *)
Section EvaluatorExtras.
Variable subprocess_run : nat -> list string -> ProcessOutcome.

Lemma run_criterion_bench_state features ev outcome ev' :
  _run_criterion_bench subprocess_run features ev = (outcome, ev') ->
  ev' = {| _baseline_results := _baseline_results ev; runs := S (runs ev) |}.
Proof.
  unfold _run_criterion_bench.
  destruct (subprocess_run (runs ev) (bench_command features)) as [rc rep|];
    [destruct (negb (rc =? 0)%Z)|]; intros H; now inversion H.
Qed.

Lemma evaluate_cached_state candidate ev base outcome ev' :
  _baseline_results ev = Some base ->
  evaluate subprocess_run candidate ev = (outcome, ev') ->
  runs ev' = S (runs ev) /\ _baseline_results ev' = Some base.
Proof.
  intros Hb. rewrite evaluate_eq.
  destruct (_run_criterion_bench subprocess_run (feature_flags candidate) ev)
    as [[results|e] ev1] eqn:E;
    apply run_criterion_bench_state in E; subst ev1; cbn [_baseline_results];
    try rewrite Hb; intros H; inversion H; subst; simpl; auto.
Qed.

(** X7.  With a cached baseline, [evaluate] makes one external run, whatever its
    outcome, and leaves the cache as it is. *)
Theorem evaluate_uses_cached_baseline candidate ev base outcome ev' :
  _baseline_results ev = Some base ->
  evaluate subprocess_run candidate ev = (outcome, ev') ->
  runs ev' = S (runs ev) /\ _baseline_results ev' = Some base.
Proof. apply evaluate_cached_state. Qed.

Lemma evaluate_lazy_capture candidate ev rc1 report1 rc2 report2 :
  _baseline_results ev = None ->
  subprocess_run (runs ev) (bench_command (feature_flags candidate)) =
    Completed rc1 report1 ->
  subprocess_run (S (runs ev)) (bench_command []) = Completed rc2 report2 ->
  exists relative,
    evaluate subprocess_run candidate ev =
    (Return relative,
     {| _baseline_results := Some (if (rc2 =? 0)%Z then report2 else []);
        runs := S (S (runs ev)) |}).
Proof.
  intros Hb H1 H2. destruct ev as [b n]. cbn [_baseline_results runs] in *.
  subst b. rewrite evaluate_eq.
  unfold capture_baseline, bind, _run_criterion_bench.
  cbn [_baseline_results runs]. rewrite H1.
  destruct (negb (rc1 =? 0)%Z); cbn [_baseline_results runs]; rewrite H2;
    destruct (rc2 =? 0)%Z; cbn [negb]; rewrite for_each_relative;
    eexists; reflexivity.
Qed.

(** X8.  Without a cached baseline, [evaluate] runs the candidate first and the
    baseline second, and caches what the second run reports. *)
Theorem evaluate_captures_baseline_after_candidate
    candidate ev rc1 report1 rc2 report2 :
  _baseline_results ev = None ->
  subprocess_run (runs ev) (bench_command (feature_flags candidate)) =
    Completed rc1 report1 ->
  subprocess_run (S (runs ev)) (bench_command []) = Completed rc2 report2 ->
  exists relative,
    evaluate subprocess_run candidate ev =
    (Return relative,
     {| _baseline_results := Some (if (rc2 =? 0)%Z then report2 else []);
        runs := S (S (runs ev)) |}).
Proof. apply evaluate_lazy_capture. Qed.

(** X9.  The benchmarks of the result are those of the fresh run, in the same
    order, each once. *)
Theorem evaluate_lists_fresh_benchmarks
    candidate ev results ev1 relative ev' :
  _run_criterion_bench subprocess_run (feature_flags candidate) ev =
    (Return results, ev1) ->
  Dict.wf results ->
  evaluate subprocess_run candidate ev = (Return relative, ev') ->
  Dict.keys relative = Dict.keys results /\ Dict.wf relative.
Proof.
  intros Hrun Hwf Hev.
  destruct (evaluate_returns _ _ _ _ _ _ _ Hrun Hwf Hev) as (base & _ & ->).
  assert (K : Dict.keys
                (map (fun item : string * Q =>
                        (fst item, ratio base (fst item) (snd item)))
                   results) = Dict.keys results).
  { unfold Dict.keys. rewrite map_map. reflexivity. }
  split; [exact K|]. unfold Dict.wf. now rewrite K.
Qed.

(** X10.  A ratio above 1.0 means that the candidate was faster than the
    baseline, below 1.0 that it was slower. *)
Theorem evaluate_ratio_compares_times
    candidate ev results ev1 relative ev' base bench time_ns baseline_time :
  _run_criterion_bench subprocess_run (feature_flags candidate) ev =
    (Return results, ev1) ->
  Dict.wf results ->
  evaluate subprocess_run candidate ev = (Return relative, ev') ->
  _baseline_results ev' = Some base ->
  Dict.get results bench = Some time_ns ->
  Dict.get base bench = Some baseline_time ->
  (0 < time_ns)%Q ->
  exists r,
    Dict.get relative bench = Some r /\
    ((1 < r)%Q <-> (time_ns < baseline_time)%Q) /\
    ((r < 1)%Q <-> (baseline_time < time_ns)%Q).
Proof.
  intros Hrun Hwf Hev Hbase Hres Hb Ht.
  destruct (evaluate_returns _ _ _ _ _ _ _ Hrun Hwf Hev) as (base' & Hb' & ->).
  rewrite Hbase in Hb'. inversion Hb'; subst base'.
  rewrite get_map_ratio, Hres. simpl. unfold ratio. rewrite Hb.
  pose proof (proj2 (Qgtb_lt time_ns 0) Ht) as G. rewrite G.
  eexists. split; [reflexivity|].
  assert (Hne : ~ (time_ns == 0)%Q).
  { intros E. rewrite E in Ht. now apply Qlt_irrefl in Ht. }
  assert (Hmul : (baseline_time / time_ns * time_ns == baseline_time)%Q).
  { unfold Qdiv. rewrite <- Qmult_assoc, (Qmult_comm (/ time_ns)).
    rewrite Qmult_inv_r by exact Hne. apply Qmult_1_r. }
  split; split; intros H.
  - apply (Qmult_lt_r _ _ time_ns Ht) in H.
    rewrite Hmul, Qmult_1_l in H. exact H.
  - apply (Qmult_lt_r _ _ time_ns Ht). now rewrite Hmul, Qmult_1_l.
  - apply (Qmult_lt_r _ _ time_ns Ht) in H.
    rewrite Hmul, Qmult_1_l in H. exact H.
  - apply (Qmult_lt_r _ _ time_ns Ht). now rewrite Hmul, Qmult_1_l.
Qed.

End EvaluatorExtras.

(** ** Invariants of the incremental strategy *)
Section IncrementalExtras.
Variable REGISTRY : dict CodeOptimization.
Variable subprocess_run : nat -> list string -> ProcessOutcome.

Lemma incremental_fitness_raises_timeout criterion opt cur test ev cf e ev' :
  fitness cur = Some cf ->
  incremental_fitness subprocess_run criterion opt cur test ev =
    (Raise e, ev') ->
  e = TimeoutExpired.
Proof.
  intros Hcf. unfold incremental_fitness, bind, lift, ret, get_fitness.
  rewrite Hcf. destruct criterion; [|discriminate].
  destruct (evaluate subprocess_run test ev) as [[rel|e0] ev1] eqn:E.
  - rewrite avg_improvement_eq. discriminate.
  - intros H. inversion H; subst. eapply evaluate_raises; eauto.
Qed.

(** One step keeps [self._best] equal to [current], never lowers the
    fitness, and appends one entry about [opt]. *)
Lemma incremental_step_inv criterion st opt cf :
  fitness (current st) = Some cf ->
  inc_best st = Some (current st) ->
  let st' := incremental_step subprocess_run criterion st opt in
  exists cf' entry,
    fitness (current st') = Some cf' /\
    (cf <= cf')%Q /\
    inc_best st' = Some (current st') /\
    (current st' = current st \/
     current st' = set_fitness (test_candidate (current st) opt) cf') /\
    inc_history st' = inc_history st ++ [entry] /\
    entry_label entry = name opt /\
    incremental_entry entry.
Proof.
  intros Hcf Hbest st'. subst st'. rewrite incremental_step_eq. cbv zeta.
  destruct (incremental_fitness subprocess_run criterion opt (current st)
              (test_candidate (current st) opt) (inc_eval st))
    as [[f|e] ev'] eqn:E; try rewrite Hcf.
  - destruct (Qgtb f cf) eqn:G.
    + exists f. eexists. cbn. repeat split; auto.
      * apply Qgtb_lt in G. now apply Qlt_le_weak.
      * apply Qgtb_irrefl.
    + exists cf. eexists. cbn. rewrite Hcf. repeat split; auto.
      apply Qle_refl.
  - exists cf. eexists. cbn. rewrite Hcf. repeat split; auto.
    + apply Qle_refl.
    + eapply incremental_fitness_raises_timeout; eauto.
Qed.

Lemma incremental_loop_inv criterion opts : forall st cf,
  fitness (current st) = Some cf ->
  inc_best st = Some (current st) ->
  let st' := fold_left (incremental_step subprocess_run criterion) opts st in
  exists cf' entries,
    fitness (current st') = Some cf' /\
    (cf <= cf')%Q /\
    inc_best st' = Some (current st') /\
    inc_history st' = inc_history st ++ entries /\
    map entry_label entries = map name opts /\
    Forall incremental_entry entries.
Proof.
  induction opts as [|o opts IH]; intros st cf Hcf Hbest; simpl.
  - exists cf, []. rewrite app_nil_r. repeat split; auto. apply Qle_refl.
  - destruct (incremental_step_inv criterion st o cf Hcf Hbest)
      as (cf1 & e & F1 & L1 & B1 & _ & H1 & N1 & I1).
    destruct (IH _ cf1 F1 B1) as (cf' & es & F & L & B & H & N & I).
    exists cf', (e :: es). repeat split; auto.
    + eapply Qle_trans; eauto.
    + rewrite H, H1, <- app_assoc. reflexivity.
    + simpl. now rewrite N1, N.
Qed.

Lemma incremental_loop_keys criterion (K : list string) opts : forall st,
  (forall o, In o opts -> In (name o) K) ->
  Dict.keys (enabled (current st)) = K ->
  Dict.keys
    (enabled
       (current
          (fold_left (incremental_step subprocess_run criterion) opts st))) =
  K.
Proof.
  induction opts as [|o opts IH]; intros st Hin HK; simpl; auto.
  apply IH; [intros; apply Hin; simpl; auto|].
  rewrite incremental_step_eq. cbv zeta.
  assert (T : forall f,
             Dict.keys
               (enabled (set_fitness (test_candidate (current st) o) f)) = K).
  { intros f. cbn [set_fitness test_candidate enabled].
    rewrite keys_set. unfold Dict.mem.
    destruct (Dict.get (enabled (current st)) (name o)) eqn:G; auto.
    apply get_None_notin in G. exfalso. apply G. rewrite HK.
    apply Hin. simpl; auto. }
  destruct (incremental_fitness subprocess_run criterion o (current st)
              (test_candidate (current st) o) (inc_eval st))
    as [[f|e] ev']; destruct (fitness (current st)) as [cf|];
    cbn [current]; auto.
  destruct (Qgtb f cf); cbn [current]; auto.
Qed.

(** What [run_incremental] returns once the baseline is there. *)
Lemma run_incremental_after_capture self ev :
  (if use_criterion self then
     bind (capture_baseline subprocess_run) (fun _ => ret tt)
       (criterion_eval self)
   else (Return tt, criterion_eval self)) = (Return tt, ev) ->
  let st' :=
    fold_left (incremental_step subprocess_run (use_criterion self))
      (by_priority REGISTRY) (incremental_start REGISTRY self ev) in
  exists best f,
    inc_best st' = Some best /\
    current st' = best /\
    fitness best = Some f /\
    (100 <= f)%Q /\
    run_incremental REGISTRY subprocess_run self =
    (Return (Some best),
     {| use_criterion := use_criterion self;
        criterion_eval := inc_eval st';
        _history := inc_history st';
        _best := Some best;
        written :=
          written self ++
          [ResultsJson
             {| best_candidate := Some (to_dict REGISTRY best);
                best_features := feature_flags best;
                history := inc_history st' |};
           BestFeaturesSh (cargo_features best) f] |}).
Proof.
  intros Hcap st'.
  destruct (incremental_loop_inv (use_criterion self) (by_priority REGISTRY)
              (incremental_start REGISTRY self ev) 100 eq_refl eq_refl)
    as (f & es & F & L & B & _).
  fold st' in F, B. exists (current st'), f. repeat split; auto.
  unfold run_incremental. rewrite Hcap. cbv zeta. fold st'.
  unfold _save_results. cbn [_best _history written use_criterion
                               criterion_eval option_map].
  rewrite B. cbn [option_map]. now rewrite F.
Qed.

End IncrementalExtras.

Section IncrementalRunExtras.
Variable REGISTRY : dict CodeOptimization.
Variable subprocess_run : nat -> list string -> ProcessOutcome.

Lemma capture_step_cases self :
  (exists self',
     run_incremental REGISTRY subprocess_run self =
       (Raise TimeoutExpired, self') /\
     use_criterion self = true /\
     subprocess_run (runs (criterion_eval self)) (bench_command []) =
       TimedOut /\
     _history self' = _history self /\ written self' = written self) \/
  (exists ev,
     (if use_criterion self then
        bind (capture_baseline subprocess_run) (fun _ => ret tt)
          (criterion_eval self)
      else (Return tt, criterion_eval self)) = (Return tt, ev) /\
     (use_criterion self = false -> ev = criterion_eval self) /\
     (use_criterion self = true ->
      runs ev = S (runs (criterion_eval self)) /\
      exists base, _baseline_results ev = Some base)).
Proof.
  destruct (use_criterion self) eqn:U.
  - destruct (subprocess_run (runs (criterion_eval self)) (bench_command []))
      as [rc rep|] eqn:W.
    + right. unfold bind at 1, capture_baseline, bind, _run_criterion_bench.
      rewrite W. destruct (negb (rc =? 0)%Z); eexists;
        (split; [reflexivity|]); (split; [discriminate|]); intros _;
        cbn; eauto.
    + left. unfold run_incremental. rewrite U. unfold bind at 1.
      rewrite (capture_baseline_timeout _ _ W).
      eexists. split; [reflexivity|]. cbn. auto.
  - right. eexists. split; [reflexivity|]. split; auto. discriminate.
Qed.


(** X14.  A run that returns has added one history entry per optimization of the
    registry, in the order of the priorities, whether the step was accepted,
    rejected or failed. *)
Theorem run_incremental_history_labels self best self' :
  run_incremental REGISTRY subprocess_run self = (Return best, self') ->
  exists entries,
    _history self' = _history self ++ entries /\
    map entry_label entries = map name (by_priority REGISTRY).
Proof.
  intros R.
  destruct (capture_step_cases self) as [(s & H & _)|(ev & Hcap & _)];
    [congruence|].
  destruct (run_incremental_after_capture REGISTRY subprocess_run self ev Hcap)
    as (b & f & _ & _ & _ & _ & R').
  rewrite R' in R. inversion R; subst. cbn [_history].
  destruct (incremental_loop_inv subprocess_run (use_criterion self)
              (by_priority REGISTRY) (incremental_start REGISTRY self ev)
              100 eq_refl eq_refl) as (f' & es & _ & _ & _ & H & N & _).
  exists es. split; auto.
Qed.


(** X16.  The fitness of [current] never goes down along the steps. *)
Theorem incremental_fitness_never_decreases criterion opts st cf :
  fitness (current st) = Some cf ->
  inc_best st = Some (current st) ->
  forall pre post,
    opts = pre ++ post ->
    exists f1 f2,
      fitness
        (current (fold_left (incremental_step subprocess_run criterion) pre st))
        = Some f1 /\
      fitness
        (current (fold_left (incremental_step subprocess_run criterion) opts st))
        = Some f2 /\
      (cf <= f1)%Q /\ (f1 <= f2)%Q.
Proof.
  intros Hcf Hbest pre post ->.
  destruct (incremental_loop_inv subprocess_run criterion pre st cf Hcf Hbest)
    as (f1 & es1 & F1 & L1 & B1 & _).
  rewrite fold_left_app.
  destruct (incremental_loop_inv subprocess_run criterion post _ f1 F1 B1)
    as (f2 & es2 & F2 & L2 & _).
  exists f1, f2. auto.
Qed.

End IncrementalRunExtras.

(** ** Means of ratios and the decision of a step *)








Lemma Qgtb_scaled (cf m : Q) :
  (0 < cf)%Q -> Qgtb (cf * m) cf = Qgtb m 1.
Proof.
  intros H. destruct (Qgtb m 1) eqn:G.
  - apply Qgtb_lt in G. apply Qgtb_lt.
    rewrite <- (Qmult_1_r cf) at 1. now apply Qmult_lt_l.
  - apply Qgtb_le in G. apply Qgtb_le.
    rewrite <- (Qmult_1_r cf) at 2. now apply Qmult_le_l.
Qed.

Section StepExtras.
Variable REGISTRY : dict CodeOptimization.
Variable subprocess_run : nat -> list string -> ProcessOutcome.

Lemma incremental_step_decides st opt relative ev' cf :
  fitness (current st) = Some cf ->
  (0 < cf)%Q ->
  evaluate subprocess_run (test_candidate (current st) opt) (inc_eval st) =
    (Return relative, ev') ->
  let f := (cf * fitness_factor relative)%Q in
  incremental_step subprocess_run true st opt =
  if Qgtb (fitness_factor relative) 1 then
    {| current := set_fitness (test_candidate (current st) opt) f;
       inc_best := Some (set_fitness (test_candidate (current st) opt) f);
       inc_history := inc_history st ++ [StepEntry (name opt) f false f];
       inc_eval := ev' |}
  else
    {| current := current st;
       inc_best := inc_best st;
       inc_history := inc_history st ++ [StepEntry (name opt) f false cf];
       inc_eval := ev' |}.
Proof.
  intros Hcf Hpos E f. rewrite incremental_step_eq. cbv zeta.
  rewrite (incremental_fitness_returns _ _ _ _ _ _ _ _ Hcf E), Hcf.
  fold f. unfold f at 1. rewrite (Qgtb_scaled _ _ Hpos).
  destruct (Qgtb (fitness_factor relative) 1) eqn:G; auto.
  - now rewrite Qgtb_irrefl.
  - assert (G' : Qgtb f cf = false)
      by (unfold f; now rewrite (Qgtb_scaled _ _ Hpos)).
    now rewrite G'.
Qed.

(** X17.  With Criterion, a step accepts the tested candidate exactly when the
    mean of the hot ratios is above 1.0; otherwise [current] and
    [self._best] stay. *)
Theorem incremental_accepts_iff_factor_above_one st opt relative ev' cf :
  fitness (current st) = Some cf ->
  (0 < cf)%Q ->
  evaluate subprocess_run (test_candidate (current st) opt) (inc_eval st) =
    (Return relative, ev') ->
  let st' := incremental_step subprocess_run true st opt in
  ((1 < fitness_factor relative)%Q ->
   current st' =
     set_fitness (test_candidate (current st) opt)
       (cf * fitness_factor relative) /\
   inc_best st' = Some (current st')) /\
  ((fitness_factor relative <= 1)%Q ->
   current st' = current st /\ inc_best st' = inc_best st).
Proof.
  intros Hcf Hpos E st'. subst st'.
  rewrite (incremental_step_decides st opt relative ev' cf Hcf Hpos E).
  split; intros H.
  - apply Qgtb_lt in H. rewrite H. cbn. auto.
  - apply Qgtb_le in H. rewrite H. cbn. auto.
Qed.


(** X19.  A candidate whose benchmark run exits with a non-zero status is not an
    error for the incremental strategy: the step is recorded as an ordinary
    rejection with the fitness unchanged. *)
Theorem incremental_step_nonzero_exit st opt cf base returncode report :
  fitness (current st) = Some cf ->
  _baseline_results (inc_eval st) = Some base ->
  subprocess_run (runs (inc_eval st))
    (bench_command (feature_flags (test_candidate (current st) opt))) =
    Completed returncode report ->
  returncode <> 0%Z ->
  incremental_step subprocess_run true st opt =
  {| current := current st;
     inc_best := inc_best st;
     inc_history :=
       inc_history st ++ [StepEntry (name opt) (cf * 1) false cf];
     inc_eval := {| _baseline_results := Some base;
                    runs := S (runs (inc_eval st)) |} |}.
Proof.
  intros Hcf Hb W Hrc.
  assert (E : evaluate subprocess_run (test_candidate (current st) opt)
                (inc_eval st) =
              (Return [],
               {| _baseline_results := Some base;
                  runs := S (runs (inc_eval st)) |})).
  { rewrite evaluate_eq. unfold _run_criterion_bench. rewrite W.
    apply Z.eqb_neq in Hrc. rewrite Hrc. cbn. now rewrite Hb. }
  rewrite incremental_step_eq. cbv zeta.
  rewrite (incremental_fitness_returns _ _ _ _ _ _ _ _ Hcf E), Hcf.
  change (fitness_factor []) with 1%Q.
  assert (G : Qgtb (cf * 1) cf = false).
  { apply Qgtb_le. rewrite Qmult_1_r. apply Qle_refl. }
  now rewrite G.
Qed.

End StepExtras.

Section RunCountExtras.
Variable REGISTRY : dict CodeOptimization.
Variable subprocess_run : nat -> list string -> ProcessOutcome.

Lemma incremental_fitness_state criterion opt cur test ev outcome ev' :
  incremental_fitness subprocess_run criterion opt cur test ev =
    (outcome, ev') ->
  if criterion then
    exists o, evaluate subprocess_run test ev = (o, ev')
  else ev' = ev.
Proof.
  unfold incremental_fitness, bind, lift, ret. destruct criterion.
  - destruct (evaluate subprocess_run test ev) as [[rel|e] ev1].
    + destruct (avg_improvement rel); destruct (get_fitness cur);
        intros H; inversion H; eauto.
    + intros H; inversion H; eauto.
  - destruct (get_fitness cur); intros H; inversion H; auto.
Qed.

Lemma incremental_step_state criterion st opt :
  exists outcome,
    incremental_fitness subprocess_run criterion opt (current st)
      (test_candidate (current st) opt) (inc_eval st) =
    (outcome, inc_eval (incremental_step subprocess_run criterion st opt)).
Proof.
  rewrite incremental_step_eq. cbv zeta.
  destruct (incremental_fitness subprocess_run criterion opt (current st)
              (test_candidate (current st) opt) (inc_eval st))
    as [[f|e] ev']; destruct (fitness (current st)) as [cf|];
    try destruct (Qgtb f cf); eexists; reflexivity.
Qed.

Lemma incremental_loop_runs opts : forall st base,
  _baseline_results (inc_eval st) = Some base ->
  let st' := fold_left (incremental_step subprocess_run true) opts st in
  runs (inc_eval st') = (runs (inc_eval st) + List.length opts)%nat /\
  _baseline_results (inc_eval st') = Some base.
Proof.
  induction opts as [|o opts IH]; intros st base Hb; simpl.
  - split; auto.
  - destruct (incremental_step_state true st o) as (out & St).
    apply incremental_fitness_state in St. destruct St as (o1 & E).
    destruct (evaluate_cached_state subprocess_run _ _ _ _ _ Hb E)
      as (R1 & B1).
    destruct (IH _ base B1) as (R & B). split; auto.
    rewrite R, R1. lia.
Qed.

Lemma incremental_loop_mock_state opts : forall st,
  inc_eval (fold_left (incremental_step subprocess_run false) opts st) =
  inc_eval st.
Proof.
  induction opts as [|o opts IH]; intros st; simpl; auto.
  rewrite IH. destruct (incremental_step_state false st o) as (out & St).
  now apply incremental_fitness_state in St.
Qed.

(** X20.  With Criterion and a baseline capture that completes, the incremental
    strategy costs one external run for the baseline and one per
    optimization of the registry. *)
Theorem run_incremental_external_runs self returncode report :
  use_criterion self = true ->
  subprocess_run (runs (criterion_eval self)) (bench_command []) =
    Completed returncode report ->
  exists best self',
    run_incremental REGISTRY subprocess_run self = (Return best, self') /\
    runs (criterion_eval self') =
      (runs (criterion_eval self) + 1 + List.length REGISTRY)%nat.
Proof.
  intros U W.
  destruct (capture_step_cases REGISTRY subprocess_run self)
    as [(s & _ & _ & T & _)|(ev & Hcap & _ & Hev)]; [congruence|].
  destruct (Hev U) as (R0 & base & B0).
  destruct (run_incremental_after_capture REGISTRY subprocess_run self ev Hcap)
    as (b & f & _ & _ & _ & _ & R).
  eexists. eexists. split; [exact R|]. cbn [criterion_eval]. rewrite U.
  destruct (incremental_loop_runs (by_priority REGISTRY)
              (incremental_start REGISTRY self ev) base B0) as (R1 & _).
  rewrite R1. cbn [incremental_start inc_eval]. rewrite R0.
  unfold by_priority. rewrite stable_sort_length.
  unfold Dict.values. rewrite length_map. lia.
Qed.

End RunCountExtras.

Section CombinatorialExtras.
Variable REGISTRY : dict CodeOptimization.
Variable subprocess_run : nat -> list string -> ProcessOutcome.

Lemma combinatorial_step_best criterion st cand entries :
  best_of_entries (comb_best st) entries ->
  let st' := combinatorial_step REGISTRY subprocess_run criterion st cand in
  exists new,
    comb_history st' = comb_history st ++ new /\
    best_of_entries (comb_best st') (entries ++ new).
Proof.
  intros Inv st'. subst st'. rewrite combinatorial_step_eq.
  destruct (combinatorial_fitness REGISTRY subprocess_run criterion cand
              (comb_eval st)) as [[f|e] ev'].
  - cbv zeta. destruct (comb_best st) as [b|] eqn:Hb.
    + destruct Inv as (bf & Hf & Hin & Hall). rewrite Hf.
      eexists. split; [reflexivity|]. cbn [comb_best].
      destruct (Qgtb f bf) eqn:G.
      * exists f. split; [reflexivity|]. split.
        -- apply in_or_app. right. left. reflexivity.
        -- apply Forall_app. split.
           ++ eapply Forall_impl; [|exact Hall]. intros [ | |n f' en]; auto.
              intros H. eapply Qle_trans; [exact H|].
              apply Qlt_le_weak. now apply Qgtb_lt.
           ++ repeat constructor. apply Qle_refl.
      * exists bf. split; [exact Hf|]. split.
        -- apply in_or_app. now left.
        -- apply Forall_app. split; auto.
           repeat constructor. now apply Qgtb_le.
    + simpl in Inv. subst entries.
      eexists. split; [reflexivity|]. cbn [comb_best].
      exists f. split; [reflexivity|]. split.
      * left. reflexivity.
      * repeat constructor. apply Qle_refl.
  - exists []. rewrite !app_nil_r. auto.
Qed.

Lemma combinatorial_loop_best criterion candidates : forall st entries,
  best_of_entries (comb_best st) entries ->
  let st' :=
    fold_left (combinatorial_step REGISTRY subprocess_run criterion)
      candidates st in
  exists new,
    comb_history st' = comb_history st ++ new /\
    best_of_entries (comb_best st') (entries ++ new).
Proof.
  induction candidates as [|c candidates IH]; intros st entries Inv; simpl.
  - exists []. rewrite !app_nil_r. auto.
  - destruct (combinatorial_step_best criterion st c entries Inv)
      as (n1 & H1 & I1).
    destruct (IH _ _ I1) as (n2 & H2 & I2).
    exists (n1 ++ n2). rewrite H2, H1, <- !app_assoc. rewrite <- app_assoc in I2.
    auto.
Qed.

(** X23.  [run_combinatorial] never raises.  The best it returns is the recorded
    candidate of largest fitness, and there is no best exactly when no
    candidate could be evaluated. *)
Theorem run_combinatorial_best_is_maximum self max_combinations :
  exists best self' entries,
    run_combinatorial REGISTRY subprocess_run self max_combinations =
      (Return best, self') /\
    _best self' = best /\
    _history self' = _history self ++ entries /\
    best_of_entries best entries.
Proof.
  destruct (combinatorial_loop_best (use_criterion self)
              (selected_candidates REGISTRY max_combinations)
              (combinatorial_start self) [] eq_refl) as (es & H & I).
  cbn [app] in I. unfold run_combinatorial, _save_results. cbv zeta.
  cbn [_best _history written use_criterion criterion_eval].
  match goal with
  | |- context [fold_left ?f ?l ?s] => set (st' := fold_left f l s) in *
  end.
  destruct (comb_best st') as [b|] eqn:Hb.
  - destruct I as (f & F & I). rewrite F.
    eexists. eexists. exists es. split; [reflexivity|].
    cbn [_best _history]. repeat split; auto. exists f. auto.
  - eexists. eexists. exists es. split; [reflexivity|].
    cbn [_best _history]. auto.
Qed.

End CombinatorialExtras.




Section MockCombinatorialExtras.
Variable REGISTRY : dict CodeOptimization.
Variable subprocess_run : nat -> list string -> ProcessOutcome.

Lemma combinatorial_step_mock st cand :
  (forall b, comb_best st = Some b -> fitness b <> None) ->
  let f := (100 * (1 + expected_total_gain REGISTRY cand))%Q in
  combinatorial_step REGISTRY subprocess_run false st cand =
  {| comb_best :=
       match comb_best st with
       | None => Some (set_fitness cand f)
       | Some b =>
           match fitness b with
           | Some bf => if Qgtb f bf then Some (set_fitness cand f) else Some b
           | None => Some b
           end
       end;
     comb_history := comb_history st ++ [mock_combo_entry REGISTRY cand];
     comb_eval := comb_eval st |}.
Proof.
  intros Hb f. rewrite combinatorial_step_eq.
  unfold combinatorial_fitness, ret. cbv zeta. fold f.
  destruct (comb_best st) as [b|] eqn:E; auto.
  destruct (fitness b) eqn:F; auto.
  exfalso. eapply Hb; eauto.
Qed.

Lemma combinatorial_loop_mock candidates : forall st,
  (forall b, comb_best st = Some b -> fitness b <> None) ->
  let st' :=
    fold_left (combinatorial_step REGISTRY subprocess_run false)
      candidates st in
  comb_history st' =
    comb_history st ++ map (mock_combo_entry REGISTRY) candidates /\
  comb_eval st' = comb_eval st /\
  (forall b, comb_best st' = Some b -> fitness b <> None).
Proof.
  induction candidates as [|c candidates IH]; intros st Hb; simpl.
  - rewrite app_nil_r. auto.
  - rewrite (combinatorial_step_mock st c Hb). cbv zeta.
    match goal with
    | |- context [fold_left _ candidates ?s] =>
        destruct (IH s) as (H & E & B)
    end.
    + cbn [comb_best]. intros b.
      destruct (comb_best st) as [b0|] eqn:E0.
      * destruct (fitness b0) eqn:F0.
        -- destruct (Qgtb _ _); intros H; inversion H; subst;
             [discriminate | congruence].
        -- exfalso. eapply Hb; eauto.
      * intros H; inversion H; subst. discriminate.
    + rewrite H. cbn [comb_history comb_eval] in *.
      rewrite <- app_assoc. auto.
Qed.



End MockCombinatorialExtras.

Section WorldExtras.
Variable REGISTRY : dict CodeOptimization.

Lemma fold_left_ext_eq {A B : Type} (f g : A -> B -> A) (l : list B) :
  (forall a b, f a b = g a b) -> forall a, fold_left f l a = fold_left g l a.
Proof.
  intros H. induction l as [|b l IH]; intros a; simpl; auto.
  now rewrite H, IH.
Qed.

(** X22.  In mock mode no benchmark is ever run: neither strategy depends on
    what the external process would do, and the evaluator is left
    untouched. *)
Theorem mock_mode_ignores_the_benchmarks
    (world1 world2 : nat -> list string -> ProcessOutcome) self :
  use_criterion self = false ->
  run_incremental REGISTRY world1 self = run_incremental REGISTRY world2 self /\
  criterion_eval (snd (run_incremental REGISTRY world1 self)) =
    criterion_eval self /\
  forall max_combinations,
    run_combinatorial REGISTRY world1 self max_combinations =
      run_combinatorial REGISTRY world2 self max_combinations /\
    criterion_eval (snd (run_combinatorial REGISTRY world1 self
                           max_combinations)) = criterion_eval self.
Proof.
  intros U. split; [|split].
  - unfold run_incremental. rewrite U. cbv zeta.
    rewrite (fold_left_ext_eq (incremental_step world1 false)
               (incremental_step world2 false)); auto.
  - destruct (capture_step_cases REGISTRY world1 self)
      as [(s & _ & U' & _)|(ev & Hcap & Hev & _)]; [congruence|].
    destruct (run_incremental_after_capture REGISTRY world1 self ev Hcap)
      as (b & f & _ & _ & _ & _ & R).
    rewrite R. cbn [snd criterion_eval]. rewrite U.
    rewrite incremental_loop_mock_state. cbn. now apply Hev.
  - intros max_combinations. split.
    + unfold run_combinatorial. rewrite U. cbv zeta.
      rewrite (fold_left_ext_eq (combinatorial_step REGISTRY world1 false)
                 (combinatorial_step REGISTRY world2 false)); auto.
    + unfold run_combinatorial. rewrite U. cbv zeta.
      destruct (combinatorial_loop_mock REGISTRY world1
                  (selected_candidates REGISTRY max_combinations)
                  (combinatorial_start self)) as (_ & E & B);
        [cbn; discriminate|].
      unfold _save_results. cbn [_best criterion_eval].
      match goal with
      | |- context [comb_best ?s] => destruct (comb_best s) as [b|]
      end; [destruct (fitness b)|]; cbn [snd criterion_eval]; exact E.
Qed.

(** X5.  Every candidate that the strategies build covers the registry: its
    [enabled] map has the keys of the registry, in the order of the
    registry. *)
Theorem candidates_cover_registry
    (subprocess_run : nat -> list string -> ProcessOutcome) :
  Dict.wf REGISTRY ->
  (forall o, In o (Dict.values REGISTRY) -> In (name o) (Dict.keys REGISTRY)) ->
  Dict.keys (enabled (baseline REGISTRY)) = Dict.keys REGISTRY /\
  (forall c, In c (power_set_candidates REGISTRY) ->
             Dict.keys (enabled c) = Dict.keys REGISTRY) /\
  (forall self best self',
     run_incremental REGISTRY subprocess_run self =
       (Return (Some best), self') ->
     Dict.keys (enabled best) = Dict.keys REGISTRY).
Proof.
  intros Hwf Hnames.
  assert (K : forall f : string -> bool,
             Dict.keys (Dict.comp f (Dict.keys REGISTRY)) =
             Dict.keys REGISTRY).
  { intros f. rewrite comp_NoDup by exact Hwf.
    unfold Dict.keys. rewrite map_map. simpl. apply map_id. }
  split; [apply K|]. split.
  - intros c Hc. unfold power_set_candidates in Hc. cbv zeta in Hc.
    apply in_flat_map in Hc. destruct Hc as (r & _ & Hc).
    apply in_map_iff in Hc. destruct Hc as (combo & <- & _).
    cbn [enabled]. apply K.
  - intros self best self' R.
    destruct (capture_step_cases REGISTRY subprocess_run self)
      as [(s & H & _)|(ev & Hcap & _)]; [congruence|].
    destruct (run_incremental_after_capture REGISTRY subprocess_run self ev
                Hcap) as (b & f & _ & C & _ & _ & R').
    rewrite R' in R. inversion R; subst best.
    rewrite <- C. apply incremental_loop_keys.
    + intros o Ho. apply Hnames.
      eapply Permutation_in; [apply stable_sort_perm|exact Ho].
    + cbn [incremental_start current set_fitness enabled baseline]. apply K.
Qed.

End WorldExtras.

Section CombinatorialRunsExtras.
Variable REGISTRY : dict CodeOptimization.
Variable subprocess_run : nat -> list string -> ProcessOutcome.

Lemma combinatorial_step_state st cand :
  exists outcome,
    evaluate subprocess_run cand (comb_eval st) =
    (outcome,
     comb_eval (combinatorial_step REGISTRY subprocess_run true st cand)).
Proof.
  rewrite combinatorial_step_eq. unfold combinatorial_fitness, bind, lift, ret.
  destruct (evaluate subprocess_run cand (comb_eval st)) as [[rel|e] ev'].
  - rewrite avg_improvement_eq. cbv zeta.
    destruct (comb_best st) as [b|]; [destruct (fitness b)|];
      eexists; reflexivity.
  - eexists; reflexivity.
Qed.

Lemma combinatorial_loop_runs candidates : forall st base,
  _baseline_results (comb_eval st) = Some base ->
  let st' :=
    fold_left (combinatorial_step REGISTRY subprocess_run true)
      candidates st in
  runs (comb_eval st') = (runs (comb_eval st) + List.length candidates)%nat /\
  _baseline_results (comb_eval st') = Some base.
Proof.
  induction candidates as [|c candidates IH]; intros st base Hb; simpl.
  - split; auto.
  - destruct (combinatorial_step_state st c) as (out & E).
    destruct (evaluate_cached_state subprocess_run _ _ _ _ _ Hb E)
      as (R1 & B1).
    destruct (IH _ base B1) as (R & B). split; auto.
    rewrite R, R1. lia.
Qed.

(** X25.  When no external run times out, a combinatorial run that starts
    without a baseline captures it once, right after the run of the first
    candidate: it costs one run per selected candidate and one more. *)
Theorem run_combinatorial_external_runs self max_combinations first rest :
  (forall i cmd, subprocess_run i cmd <> TimedOut) ->
  use_criterion self = true ->
  _baseline_results (criterion_eval self) = None ->
  selected_candidates REGISTRY max_combinations = first :: rest ->
  runs (criterion_eval
          (snd (run_combinatorial REGISTRY subprocess_run self
                  max_combinations))) =
  (runs (criterion_eval self) + List.length (first :: rest) + 1)%nat.
Proof.
  intros Hw U Hb Hsel.
  assert (E : criterion_eval
                (snd (run_combinatorial REGISTRY subprocess_run self
                        max_combinations)) =
              comb_eval
                (fold_left (combinatorial_step REGISTRY subprocess_run true)
                   (first :: rest) (combinatorial_start self))).
  { unfold run_combinatorial, _save_results. cbv zeta.
    rewrite U, Hsel. cbn [_best criterion_eval].
    match goal with
    | |- context [comb_best ?s] => destruct (comb_best s) as [b|]
    end; [destruct (fitness b)|]; reflexivity. }
  rewrite E. cbn [fold_left].
  destruct (combinatorial_step_state (combinatorial_start self) first)
    as (out & St).
  cbn [combinatorial_start comb_eval] in St.
  destruct (subprocess_run (runs (criterion_eval self))
              (bench_command (feature_flags first))) as [rc1 rep1|] eqn:W1;
    [|exfalso; eapply Hw; eauto].
  destruct (subprocess_run (S (runs (criterion_eval self))) (bench_command []))
    as [rc2 rep2|] eqn:W2; [|exfalso; eapply Hw; eauto].
  destruct (evaluate_lazy_capture subprocess_run first (criterion_eval self)
              rc1 rep1 rc2 rep2 Hb W1 W2) as (rel & Ev).
  rewrite Ev in St. inversion St as [[Ho Hev]].
  match goal with
  | |- context [fold_left _ rest ?s] =>
      destruct (combinatorial_loop_runs rest s
                  (if (rc2 =? 0)%Z then rep2 else [])) as (R & _)
  end.
  - now rewrite <- Hev.
  - rewrite R, <- Hev. cbn [runs List.length]. lia.
Qed.

End CombinatorialRunsExtras.

(** ** The order of the incremental strategy *)

(** X12.  The incremental strategy goes through the optimizations of the
    registry, each once, by ascending priority; optimizations of equal
    priority keep the order of the registry. *)
Theorem by_priority_sorted (REGISTRY : dict CodeOptimization) :
  Permutation (by_priority REGISTRY) (Dict.values REGISTRY) /\
  StronglySorted (fun a b => (priority a <= priority b)%Z)
    (by_priority REGISTRY) /\
  forall p : Z,
    filter (fun o => (priority o =? p)%Z) (by_priority REGISTRY) =
    filter (fun o => (priority o =? p)%Z) (Dict.values REGISTRY).
Proof.
  unfold by_priority. split; [apply stable_sort_perm|]. split.
  - eapply StronglySorted_impl; [|apply stable_sort_sorted].
    + intros a b H. now apply Z.leb_le in H.
    + intros x y. rewrite !Z.leb_le. lia.
    + intros x y z. rewrite !Z.leb_le. lia.
  - intros p. apply stable_sort_filter. intros x y Hx Hy.
    apply Z.eqb_eq in Hx, Hy. apply Z.leb_le. lia.
Qed.

(** ** Hot benchmarks *)

Lemma prefix_iff (sub s : string) :
  prefix sub s = true <-> exists post, s = (sub ++ post)%string.
Proof.
  revert s. induction sub as [|a sub IH]; intros s.
  - split; [intros _; exists s; reflexivity | now destruct s].
  - destruct s as [|b s]; simpl.
    + split; [discriminate | intros [post H]; discriminate].
    + destruct (ascii_dec a b) as [->|Hne].
      * rewrite IH. split; intros [post H]; exists post.
        -- now rewrite H.
        -- now inversion H.
      * split; [discriminate|]. intros [post H]. inversion H. congruence.
Qed.

Lemma contains_unfold (sub s : string) :
  contains sub s =
  prefix sub s ||
  match s with
  | EmptyString => false
  | String _ s' => contains sub s'
  end.
Proof. now destruct s. Qed.

Lemma contains_iff (sub s : string) :
  contains sub s = true <->
  exists pre post, s = (pre ++ sub ++ post)%string.
Proof.
  split.
  - induction s as [|c s IH]; rewrite contains_unfold, orb_true_iff.
    + intros [H|H]; [|discriminate].
      apply prefix_iff in H. destruct H as [post H]. exists ""%string, post.
      exact H.
    + intros [H|H].
      * apply prefix_iff in H. destruct H as [post H].
        exists ""%string, post. exact H.
      * destruct (IH H) as (pre & post & E).
        exists (String c pre), post. simpl. now rewrite E.
  - intros (pre & post & E). subst s.
    induction pre as [|c pre IH].
    + rewrite contains_unfold, orb_true_iff. left.
      apply prefix_iff. exists post. reflexivity.
    + cbn [append]. rewrite contains_unfold, IH. apply orb_true_r.
Qed.

(** X11.  The benchmarks that count for the fitness are those whose identifier
    holds [set_direct] or [get_direct] at any position. *)
Theorem relevant_selects_hot_benchmarks (relative : dict Q) (v : Q) :
  In v (relevant relative) <->
  exists bench pre post hp,
    In (bench, v) (Dict.items relative) /\
    (hp = "set_direct" \/ hp = "get_direct")%string /\
    bench = (pre ++ hp ++ post)%string.
Proof.
  unfold relevant. rewrite in_map_iff. split.
  - intros ([bench v'] & E & H). simpl in E. subst v'.
    apply filter_In in H. destruct H as (Hin & Hhot). simpl in Hhot.
    rewrite orb_false_r in Hhot. apply orb_true_iff in Hhot.
    destruct Hhot as [H|H]; apply contains_iff in H;
      destruct H as (pre & post & E); exists bench, pre, post;
      eexists; split; eauto.
  - intros (bench & pre & post & hp & Hin & Hhp & E).
    exists (bench, v). split; auto. apply filter_In. split; auto.
    simpl. rewrite orb_false_r. apply orb_true_iff.
    destruct Hhp as [-> | ->]; [left|right]; apply contains_iff; eauto.
Qed.

(** ** The parsed report *)

Lemma parse_matches_snoc matches m :
  parse_matches (matches ++ [m]) =
  Dict.set (parse_matches matches) (fst (fst m))
    (to_nanoseconds (snd (fst m)) (snd m)).
Proof. unfold parse_matches. now rewrite fold_left_app. Qed.

(** X6.  The parsed report holds each benchmark once, with the duration of its
    last match in the output, in nanoseconds. *)
Theorem parse_matches_last_wins (matches : list (string * Q * TimeUnit)) :
  Dict.wf (parse_matches matches) /\
  forall bench,
    Dict.get (parse_matches matches) bench =
    option_map (fun m => to_nanoseconds (snd (fst m)) (snd m))
      (find (fun m => String.eqb (fst (fst m)) bench) (rev matches)).
Proof.
  induction matches as [|m matches [IHwf IH]] using rev_ind.
  - split; [constructor | reflexivity].
  - rewrite parse_matches_snoc. split; [now apply set_keeps_wf|].
    intros bench. rewrite rev_app_distr. cbn [rev app find].
    destruct (String.eqb (fst (fst m)) bench) eqn:E.
    + apply String.eqb_eq in E. subst bench. apply get_set_same.
    + apply String.eqb_neq in E. rewrite get_set_other by congruence.
      apply IH.
Qed.

(** ** Serialization of candidates *)


Section MainExtras.
Variable REGISTRY : dict CodeOptimization.
Variable subprocess_run : nat -> list string -> ProcessOutcome.

(** X21.  A run of [run_incremental] that returns has written two files: the
    results, which hold the returned best, its flags and the whole history,
    and the script that carries the same flags and the fitness. *)
Theorem run_incremental_writes_results self best self' :
  run_incremental REGISTRY subprocess_run self = (Return best, self') ->
  exists b f,
    best = Some b /\
    fitness b = Some f /\
    written self' =
      written self ++
      [ResultsJson {| best_candidate := Some (to_dict REGISTRY b);
                      best_features := feature_flags b;
                      history := _history self' |};
       BestFeaturesSh (cargo_features b) f].
Proof.
  intros R.
  destruct (capture_step_cases REGISTRY subprocess_run self)
    as [(s & H & _)|(ev & Hcap & _)]; [congruence|].
  destruct (run_incremental_after_capture REGISTRY subprocess_run self ev Hcap)
    as (b & f & _ & _ & F & _ & R').
  rewrite R' in R. inversion R; subst. exists b, f. auto.
Qed.


Lemma combinatorial_loop_all_timeouts candidates : forall st,
  (forall i cmd, subprocess_run i cmd = TimedOut) ->
  let st' :=
    fold_left (combinatorial_step REGISTRY subprocess_run true)
      candidates st in
  comb_best st' = comb_best st /\ comb_history st' = comb_history st.
Proof.
  induction candidates as [|c candidates IH]; intros st Hw; simpl; auto.
  destruct (IH (combinatorial_step REGISTRY subprocess_run true st c) Hw)
    as (B & H).
  rewrite B, H.
  assert (E : exists ev',
             evaluate subprocess_run c (comb_eval st) =
             (Raise TimeoutExpired, ev')).
  { rewrite evaluate_eq. unfold _run_criterion_bench. rewrite Hw. eauto. }
  destruct E as (ev' & E).
  rewrite (combinatorial_step_error REGISTRY subprocess_run st c _ _ E).
  auto.
Qed.

(** X27.  In combinatorial mode with Criterion, when every external run times
    out there is no best candidate; [run_combinatorial] returns [None] with
    an unchanged history, and [main] ends in an [AttributeError]. *)
Theorem main_combinatorial_all_timeouts :
  (forall i cmd, subprocess_run i cmd = TimedOut) ->
  (forall self max_combinations,
     use_criterion self = true ->
     exists self',
       run_combinatorial REGISTRY subprocess_run self max_combinations =
         (Return None, self') /\
       _history self' = _history self) /\
  main REGISTRY subprocess_run combinatorial false = AttributeError.
Proof.
  intros Hw.
  assert (R : forall self max_combinations,
             use_criterion self = true ->
             exists self',
               run_combinatorial REGISTRY subprocess_run self
                 max_combinations = (Return None, self') /\
               _history self' = _history self).
  { intros self m U. unfold run_combinatorial. cbv zeta. rewrite U.
    destruct (combinatorial_loop_all_timeouts
                (selected_candidates REGISTRY m) (combinatorial_start self) Hw)
      as (B & H).
    unfold _save_results. cbn [_best _history]. rewrite B, H.
    cbn [combinatorial_start comb_best comb_history].
    eexists. split; reflexivity. }
  split; [exact R|].
  unfold main. cbv zeta.
  destruct (R (new_evolver (negb false)) 64%Z eq_refl) as (s & E & _).
  now rewrite E.
Qed.

End MainExtras.

(** ** The expected total gain *)

(** X3.  The expected total gain of a candidate is the sum of the expected gains
    of its feature flags that the registry knows; disabled names and unknown
    names add nothing. *)
Theorem expected_total_gain_sums_flags
    (REGISTRY : dict CodeOptimization) (c : OptimizationCandidate) :
  expected_total_gain REGISTRY c =
    fold_left
      (fun total n =>
         match Dict.get REGISTRY n with
         | Some o => (total + expected_gain o)%Q
         | None => total
         end)
      (feature_flags c) 0%Q /\
  expected_total_gain REGISTRY (baseline REGISTRY) = 0%Q.
Proof.
  assert (G : forall (d : dict bool) (a : Q),
             fold_left
               (fun (total : Q) (item : string * bool) =>
                  match (if snd item then Dict.get REGISTRY (fst item)
                         else None) with
                  | Some o => (total + expected_gain o)%Q
                  | None => total
                  end) d a =
             fold_left
               (fun total n =>
                  match Dict.get REGISTRY n with
                  | Some o => (total + expected_gain o)%Q
                  | None => total
                  end)
               (map fst (filter (fun item : string * bool => snd item) d)) a).
  { induction d as [|[k b] d IH]; intros a; simpl; auto.
    destruct b; simpl; apply IH. }
  assert (E : forall c0,
             expected_total_gain REGISTRY c0 =
             fold_left
               (fun total n =>
                  match Dict.get REGISTRY n with
                  | Some o => (total + expected_gain o)%Q
                  | None => total
                  end)
               (feature_flags c0) 0%Q).
  { intros c0. unfold expected_total_gain, feature_flags, Dict.items.
    apply G. }
  split; [apply E|].
  rewrite E, baseline_no_flags. reflexivity.
Qed.

(** ** The properties on the shipped registry *)

Lemma shipped_registry_wf : Dict.wf CODE_OPTIMIZATIONS.
Proof.
  unfold Dict.wf. simpl. repeat constructor; simpl; intuition discriminate.
Defined.

Lemma all_enabled_flags_witness :
  feature_flags (all_enabled CODE_OPTIMIZATIONS) =
    Dict.keys CODE_OPTIMIZATIONS /\
  (forall n, Dict.get (enabled (all_enabled CODE_OPTIMIZATIONS)) n =
             if Dict.mem CODE_OPTIMIZATIONS n then Some true else None).
Proof. exact (all_enabled_flags CODE_OPTIMIZATIONS shipped_registry_wf). Defined.

Lemma evaluate_uses_cached_baseline_witness :
  runs {| _baseline_results := Some Examples.partial_baseline; runs := 1 |} =
    S (runs Examples.partial_evaluator) /\
  _baseline_results
    {| _baseline_results := Some Examples.partial_baseline; runs := 1 |} =
    Some Examples.partial_baseline.
Proof.
  apply (evaluate_uses_cached_baseline Examples.world_ok
           (baseline CODE_OPTIMIZATIONS) Examples.partial_evaluator
           Examples.partial_baseline (Return Examples.partial_relative)).
  - reflexivity.
  - reflexivity.
Defined.

Lemma evaluate_captures_baseline_after_candidate_witness :
  exists relative,
    evaluate Examples.world_ok (all_enabled CODE_OPTIMIZATIONS)
      Examples.fresh_evaluator =
    (Return relative,
     {| _baseline_results := Some Examples.report; runs := 2 |}).
Proof.
  apply (evaluate_captures_baseline_after_candidate Examples.world_ok
           (all_enabled CODE_OPTIMIZATIONS) Examples.fresh_evaluator
           0%Z Examples.report 0%Z Examples.report); reflexivity.
Defined.

Lemma evaluate_lists_fresh_benchmarks_witness :
  Dict.keys Examples.partial_relative = Dict.keys Examples.report /\
  Dict.wf Examples.partial_relative.
Proof.
  apply (evaluate_lists_fresh_benchmarks Examples.world_ok
           (baseline CODE_OPTIMIZATIONS) Examples.partial_evaluator
           Examples.report
           {| _baseline_results := Some Examples.partial_baseline;
              runs := 1 |}
           Examples.partial_relative
           {| _baseline_results := Some Examples.partial_baseline;
              runs := 1 |}).
  - reflexivity.
  - exact report_wf.
  - reflexivity.
Defined.

Lemma evaluate_ratio_compares_times_witness :
  exists r,
    Dict.get Examples.partial_relative "commands/get_direct" = Some r /\
    ((1 < r)%Q <-> (50 < 100)%Q) /\
    ((r < 1)%Q <-> (100 < 50)%Q).
Proof.
  apply (evaluate_ratio_compares_times Examples.world_ok
           (baseline CODE_OPTIMIZATIONS) Examples.partial_evaluator
           Examples.report
           {| _baseline_results := Some Examples.partial_baseline;
              runs := 1 |}
           Examples.partial_relative
           {| _baseline_results := Some Examples.partial_baseline;
              runs := 1 |}
           Examples.partial_baseline).
  - reflexivity.
  - exact report_wf.
  - reflexivity.
  - reflexivity.
  - reflexivity.
  - reflexivity.
  - reflexivity.
Defined.

Lemma mock_incremental_returns :
  run_incremental CODE_OPTIMIZATIONS Examples.world_timeout
    (new_evolver false) =
  (Return Runs.mock_incremental_best, snd Runs.mock_incremental).
Proof. vm_compute. reflexivity. Defined.

Lemma run_incremental_history_labels_witness :
  exists entries,
    _history (snd Runs.mock_incremental) =
      _history (new_evolver false) ++ entries /\
    map entry_label entries = map name (by_priority CODE_OPTIMIZATIONS).
Proof.
  exact (run_incremental_history_labels CODE_OPTIMIZATIONS
           Examples.world_timeout (new_evolver false)
           Runs.mock_incremental_best (snd Runs.mock_incremental)
           mock_incremental_returns).
Defined.


Lemma incremental_fitness_never_decreases_witness :
  exists f1 f2,
    fitness
      (current
         (fold_left (incremental_step Examples.world_ok false)
            (firstn 2 (by_priority CODE_OPTIMIZATIONS)) Runs.start)) =
      Some f1 /\
    fitness
      (current
         (fold_left (incremental_step Examples.world_ok false)
            (by_priority CODE_OPTIMIZATIONS) Runs.start)) = Some f2 /\
    (100 <= f1)%Q /\ (f1 <= f2)%Q.
Proof.
  apply (incremental_fitness_never_decreases Examples.world_ok false
           (by_priority CODE_OPTIMIZATIONS) Runs.start 100 eq_refl eq_refl
           (firstn 2 (by_priority CODE_OPTIMIZATIONS))
           (skipn 2 (by_priority CODE_OPTIMIZATIONS))).
  symmetry. apply firstn_skipn.
Defined.

Lemma first_step_evaluation :
  evaluate Examples.world_ok
    (test_candidate (current Runs.start) Examples.single_key_alloc)
    (inc_eval Runs.start) =
  (Return Examples.partial_relative,
   {| _baseline_results := Some Examples.partial_baseline; runs := 1 |}).
Proof. vm_compute. reflexivity. Defined.

Lemma incremental_accepts_iff_factor_above_one_witness :
  ((1 < fitness_factor Examples.partial_relative)%Q ->
   current
     (incremental_step Examples.world_ok true Runs.start
        Examples.single_key_alloc) =
     set_fitness (test_candidate (current Runs.start) Examples.single_key_alloc)
       (100 * fitness_factor Examples.partial_relative) /\
   inc_best
     (incremental_step Examples.world_ok true Runs.start
        Examples.single_key_alloc) =
     Some
       (current
          (incremental_step Examples.world_ok true Runs.start
             Examples.single_key_alloc))) /\
  ((fitness_factor Examples.partial_relative <= 1)%Q ->
   current
     (incremental_step Examples.world_ok true Runs.start
        Examples.single_key_alloc) = current Runs.start /\
   inc_best
     (incremental_step Examples.world_ok true Runs.start
        Examples.single_key_alloc) = inc_best Runs.start).
Proof.
  exact (incremental_accepts_iff_factor_above_one Examples.world_ok Runs.start
           Examples.single_key_alloc Examples.partial_relative
           {| _baseline_results := Some Examples.partial_baseline;
              runs := 1 |}
           100 eq_refl eq_refl first_step_evaluation).
Defined.


Lemma first_step_exit_status :
  Examples.world_exit_101 (runs (inc_eval Runs.start))
    (bench_command
       (feature_flags
          (test_candidate (current Runs.start) Examples.single_key_alloc))) =
  Completed 101 Examples.report.
Proof. reflexivity. Defined.

Lemma incremental_step_nonzero_exit_witness :
  incremental_step Examples.world_exit_101 true Runs.start
    Examples.single_key_alloc =
  {| current := current Runs.start;
     inc_best := inc_best Runs.start;
     inc_history :=
       inc_history Runs.start ++
       [StepEntry (name Examples.single_key_alloc) (100 * 1) false 100];
     inc_eval := {| _baseline_results := Some Examples.partial_baseline;
                    runs := S (runs (inc_eval Runs.start)) |} |}.
Proof.
  apply (incremental_step_nonzero_exit Examples.world_exit_101 Runs.start
           Examples.single_key_alloc 100 Examples.partial_baseline 101%Z
           Examples.report eq_refl eq_refl first_step_exit_status).
  discriminate.
Defined.

Lemma run_incremental_external_runs_witness :
  exists best self',
    run_incremental CODE_OPTIMIZATIONS Examples.world_ok (new_evolver true) =
      (Return best, self') /\
    runs (criterion_eval self') =
      (runs (criterion_eval (new_evolver true)) + 1 +
       List.length CODE_OPTIMIZATIONS)%nat.
Proof.
  exact (run_incremental_external_runs CODE_OPTIMIZATIONS Examples.world_ok
           (new_evolver true) 0%Z Examples.report eq_refl eq_refl).
Defined.

Lemma top3_cons :
  selected_candidates CODE_OPTIMIZATIONS 3 = Runs.top :: tl Runs.top3.
Proof. vm_compute. reflexivity. Defined.


Lemma mock_mode_ignores_the_benchmarks_witness :
  run_incremental CODE_OPTIMIZATIONS Examples.world_ok (new_evolver false) =
    run_incremental CODE_OPTIMIZATIONS Examples.world_timeout
      (new_evolver false) /\
  criterion_eval
    (snd (run_incremental CODE_OPTIMIZATIONS Examples.world_ok
            (new_evolver false))) = criterion_eval (new_evolver false) /\
  forall max_combinations,
    run_combinatorial CODE_OPTIMIZATIONS Examples.world_ok (new_evolver false)
      max_combinations =
      run_combinatorial CODE_OPTIMIZATIONS Examples.world_timeout
        (new_evolver false) max_combinations /\
    criterion_eval
      (snd (run_combinatorial CODE_OPTIMIZATIONS Examples.world_ok
              (new_evolver false) max_combinations)) =
      criterion_eval (new_evolver false).
Proof.
  exact (mock_mode_ignores_the_benchmarks CODE_OPTIMIZATIONS Examples.world_ok
           Examples.world_timeout (new_evolver false) eq_refl).
Defined.

Lemma shipped_names_in_keys :
  forall o, In o (Dict.values CODE_OPTIMIZATIONS) ->
            In (name o) (Dict.keys CODE_OPTIMIZATIONS).
Proof.
  intros o H. simpl in H.
  repeat (destruct H as [<-|H]; [simpl; tauto|]). destruct H.
Defined.

Lemma candidates_cover_registry_witness :
  Dict.keys (enabled (baseline CODE_OPTIMIZATIONS)) =
    Dict.keys CODE_OPTIMIZATIONS /\
  (forall c, In c (power_set_candidates CODE_OPTIMIZATIONS) ->
             Dict.keys (enabled c) = Dict.keys CODE_OPTIMIZATIONS) /\
  (forall self best self',
     run_incremental CODE_OPTIMIZATIONS Examples.world_ok self =
       (Return (Some best), self') ->
     Dict.keys (enabled best) = Dict.keys CODE_OPTIMIZATIONS).
Proof.
  exact (candidates_cover_registry CODE_OPTIMIZATIONS Examples.world_ok
           shipped_registry_wf shipped_names_in_keys).
Defined.

Lemma world_ok_never_times_out :
  forall i cmd, Examples.world_ok i cmd <> TimedOut.
Proof. intros i cmd. discriminate. Defined.

Lemma run_combinatorial_external_runs_witness :
  runs (criterion_eval
          (snd (run_combinatorial CODE_OPTIMIZATIONS Examples.world_ok
                  (new_evolver true) 3))) =
  (runs (criterion_eval (new_evolver true)) +
   List.length (Runs.top :: tl Runs.top3) + 1)%nat.
Proof.
  exact (run_combinatorial_external_runs CODE_OPTIMIZATIONS Examples.world_ok
           (new_evolver true) 3%Z Runs.top (tl Runs.top3)
           world_ok_never_times_out eq_refl eq_refl top3_cons).
Defined.

Lemma run_incremental_writes_results_witness :
  exists b f,
    Runs.mock_incremental_best = Some b /\
    fitness b = Some f /\
    written (snd Runs.mock_incremental) =
      written (new_evolver false) ++
      [ResultsJson
         {| best_candidate := Some (to_dict CODE_OPTIMIZATIONS b);
            best_features := feature_flags b;
            history := _history (snd Runs.mock_incremental) |};
       BestFeaturesSh (cargo_features b) f].
Proof.
  exact (run_incremental_writes_results CODE_OPTIMIZATIONS
           Examples.world_timeout (new_evolver false)
           Runs.mock_incremental_best (snd Runs.mock_incremental)
           mock_incremental_returns).
Defined.

Lemma main_combinatorial_all_timeouts_witness :
  (forall self max_combinations,
     use_criterion self = true ->
     exists self',
       run_combinatorial CODE_OPTIMIZATIONS Examples.world_timeout self
         max_combinations = (Return None, self') /\
       _history self' = _history self) /\
  main CODE_OPTIMIZATIONS Examples.world_timeout combinatorial false =
    AttributeError.
Proof.
  exact (main_combinatorial_all_timeouts CODE_OPTIMIZATIONS
           Examples.world_timeout (fun i cmd => eq_refl)).
Defined.
